(** * A model of the e-commerce crawler ([ecommerce_crawler])

    The development follows the three source files:
    - [config.py]: the [CrawlerConfig] dataclass and its [__post_init__];
    - [fetcher.py]: the [UrlsFetcher] class (fetching with retries, link
      classification, recursive traversal, reporting);
    - [main.py]: the configuration used by the entry point.

    Python's [re] is modelled by a parser and a backtracking matcher for the
    fragment of the pattern language that the default patterns use, on 7-bit
    text.  A pattern outside the fragment is not read ([Re.compile] gives
    [None]); the theorems on classification are stated for pattern lists in
    the fragment ([supported]), on which [re.search] raises no [re.error],
    and, where the meaning of a match is at stake, for 7-bit URLs
    ([ascii_text]).

    Sets and dictionaries are [gset] and [gmap]; the [defaultdict]s of the
    fetcher are read with total lookup, so a missing domain reads as the
    empty set.  The network, the HTML parser, [urljoin] and the iteration
    order of sets are collaborators gathered in a record [World]; the
    [ValueError] of [urljoin] is the [None] of [World.urljoin] and ends
    [process_page] and [crawl_domain] with [Raise].

    [gather] runs the coroutines one after another, each to its end, in the
    order [asyncio.gather] receives them; the event loop interleaves them at
    their awaits instead.  What is proved of every run is stated so as not
    to depend on the order: properties of a single call, invariants that
    each step of each coroutine keeps, and properties of runs that return.
    The runs of the scenarios are computed in the sequential order. *)

From Stdlib Require Import ZArith QArith Ascii.
From stdpp Require Import gmap strings list.

Close Scope Q_scope.
Open Scope Z_scope.

(** * Regular expressions

    Characters are 8-bit; patterns are restricted to 7-bit characters, and
    the matcher is meant for 7-bit text, on which the case folding of
    IGNORECASE is that of the 26 letters and [\d] is the ten digits.  A
    pattern outside the fragment ([compile] returns [None]) matches nothing
    in this model; Python raises [re.error] on an ill-formed pattern and
    reads more syntax than the fragment has (anchors, word classes, counted
    repetition, groups with options). *)

Module Re.

(** One item of a bracketed character set. *)
Inductive citem : Type :=
| CChar (c : ascii)
| CRange (lo hi : ascii)
| CDigit
| CNonDigit.

(** Abstract syntax of the supported fragment of Python's [re]. *)
Inductive regex : Type :=
| Eps
| Chr (c : ascii)
| AnyChar
| CSet (negated : bool) (items : list citem)
| Cat (r1 r2 : regex)
| Alt (r1 r2 : regex)
| Star (r : regex)
| Eol.

Definition code (c : ascii) : nat := nat_of_ascii c.

Definition is_digit (c : ascii) : bool :=
  (48 <=? code c)%nat && (code c <=? 57)%nat.

Definition lower (c : ascii) : ascii :=
  if (65 <=? code c)%nat && (code c <=? 90)%nat
  then ascii_of_nat (code c + 32) else c.

Definition upper (c : ascii) : ascii :=
  if (97 <=? code c)%nat && (code c <=? 122)%nat
  then ascii_of_nat (code c - 32) else c.

Definition newline : ascii := ascii_of_nat 10.

(** [ic] is the IGNORECASE flag. *)
Definition chr_eq (ic : bool) (c x : ascii) : bool :=
  if ic then Ascii.eqb (lower c) (lower x) else Ascii.eqb c x.

Definition in_range (lo hi x : ascii) : bool :=
  (code lo <=? code x)%nat && (code x <=? code hi)%nat.

Definition citem_match (ic : bool) (it : citem) (x : ascii) : bool :=
  match it with
  | CChar c => chr_eq ic c x
  | CRange lo hi =>
      in_range lo hi x
      || (ic && (in_range lo hi (lower x) || in_range lo hi (upper x)))
  | CDigit => is_digit x
  | CNonDigit => negb (is_digit x)
  end.

Definition cset_match (ic negated : bool) (items : list citem) (x : ascii) : bool :=
  xorb negated (existsb (fun it => citem_match ic it x) items).

(** [$] without MULTILINE: at the end, or before a final newline. *)
Definition at_end (s : list ascii) : bool :=
  match s with
  | [] => true
  | [c] => Ascii.eqb c newline
  | _ => false
  end.

(** Backtracking matcher in continuation-passing style: [rmatch ic r s k]
    holds when [r] matches a prefix of [s] and [k] accepts the rest. *)
Fixpoint rmatch (ic : bool) (r : regex) (s : list ascii)
    (k : list ascii -> bool) {struct r} : bool :=
  match r with
  | Eps => k s
  | Chr c =>
      match s with
      | x :: s' => chr_eq ic c x && k s'
      | [] => false
      end
  | AnyChar =>
      match s with
      | x :: s' => negb (Ascii.eqb x newline) && k s'
      | [] => false
      end
  | CSet negated items =>
      match s with
      | x :: s' => cset_match ic negated items x && k s'
      | [] => false
      end
  | Cat r1 r2 => rmatch ic r1 s (fun s' => rmatch ic r2 s' k)
  | Alt r1 r2 => rmatch ic r1 s k || rmatch ic r2 s k
  | Star r1 =>
      (fix loop (n : nat) (s : list ascii) {struct n} : bool :=
         k s
         || match n with
            | O => false
            | S n' =>
                rmatch ic r1 s
                  (fun s' => (length s' <? length s)%nat && loop n' s')
            end) (length s) s
  | Eol => at_end s && k s
  end.

Fixpoint search_from (ic : bool) (r : regex) (s : list ascii) : bool :=
  rmatch ic r s (fun _ => true)
  || match s with
     | [] => false
     | _ :: s' => search_from ic r s'
     end.

(** * Parser for pattern strings *)

Inductive quant : Type := QOpt | QStar | QPlus.

Definition apply_quant (q : quant) (r : regex) : regex :=
  match q with
  | QOpt => Alt r Eps
  | QStar => Star r
  | QPlus => Cat r (Star r)
  end.

Definition quant_of (c : ascii) : option quant :=
  if Ascii.eqb c "?" then Some QOpt
  else if Ascii.eqb c "*" then Some QStar
  else if Ascii.eqb c "+" then Some QPlus
  else None.

Definition is_alnum (c : ascii) : bool :=
  is_digit c
  || ((65 <=? code c)%nat && (code c <=? 90)%nat)
  || ((97 <=? code c)%nat && (code c <=? 122)%nat).

Definition is_ascii7 (c : ascii) : bool := (code c <? 128)%nat.

(** An escape [\c] outside or inside a set: a digit class, a control
    character, or an escaped punctuation character standing for itself. *)
Definition parse_escape (c : ascii) : option (citem) :=
  if Ascii.eqb c "d" then Some CDigit
  else if Ascii.eqb c "D" then Some CNonDigit
  else if Ascii.eqb c "n" then Some (CChar newline)
  else if Ascii.eqb c "t" then Some (CChar (ascii_of_nat 9))
  else if Ascii.eqb c "r" then Some (CChar (ascii_of_nat 13))
  else if is_alnum c || negb (is_ascii7 c) then None
  else Some (CChar c).

Definition regex_of_citem (it : citem) : regex :=
  match it with
  | CChar c => Chr c
  | _ => CSet false [it]
  end.

(** Items of a set up to the closing bracket; [first] tells that no item
    has been read yet, where a closing bracket stands for itself. *)
Fixpoint parse_set (first : bool) (s : list ascii) {struct s}
    : option (list citem * list ascii) :=
  match s with
  | [] => None
  | c :: s1 =>
      if Ascii.eqb c "]" && negb first then Some ([], s1)
      else if negb (is_ascii7 c) then None
      else if Ascii.eqb c "\" then
        match s1 with
        | e :: s2 =>
            match parse_escape e, parse_set false s2 with
            | Some it, Some (its, rest) => Some (it :: its, rest)
            | _, _ => None
            end
        | [] => None
        end
      else
        match s1 with
        | d :: hi :: s3 =>
            if Ascii.eqb d "-" && negb (Ascii.eqb hi "]") then
              if Ascii.eqb hi "\" || negb (is_ascii7 hi)
                 || (code hi <? code c)%nat then None
              else
                match parse_set false s3 with
                | Some (its, rest) => Some (CRange c hi :: its, rest)
                | None => None
                end
            else
              match parse_set false s1 with
              | Some (its, rest) => Some (CChar c :: its, rest)
              | None => None
              end
        | _ =>
            match parse_set false s1 with
            | Some (its, rest) => Some (CChar c :: its, rest)
            | None => None
            end
        end
  end.

Definition parse_cset (s : list ascii) : option (regex * list ascii) :=
  match s with
  | c :: s1 =>
      if Ascii.eqb c "^" then
        match parse_set true s1 with
        | Some (its, rest) => Some (CSet true its, rest)
        | None => None
        end
      else
        match parse_set true s with
        | Some (its, rest) => Some (CSet false its, rest)
        | None => None
        end
  | [] => None
  end.

Definition cat_all (rs : list regex) : regex := foldr Cat Eps rs.

(** [parse_alt fuel depth s acc] reads the pieces of one branch into [acc]
    (in reverse) and returns the alternation together with the rest of the
    input, which starts after the closing parenthesis when [depth > 0]. *)
Fixpoint parse_alt (fuel : nat) (depth : nat) (s : list ascii)
    (acc : list regex) {struct fuel} : option (regex * list ascii) :=
  match fuel with
  | O => None
  | S fuel' =>
      let finish_piece (r : regex) (rest : list ascii) :=
        match rest with
        | q :: rest' =>
            match quant_of q with
            | Some qu =>
                match rest' with
                | q2 :: _ =>
                    match quant_of q2 with
                    | Some _ => None
                    | None =>
                        if Ascii.eqb q2 "{" then None
                        else parse_alt fuel' depth rest' (apply_quant qu r :: acc)
                    end
                | [] => parse_alt fuel' depth rest' (apply_quant qu r :: acc)
                end
            | None =>
                if Ascii.eqb q "{" then None
                else parse_alt fuel' depth rest (r :: acc)
            end
        | [] => parse_alt fuel' depth rest (r :: acc)
        end in
      match s with
      | [] =>
          match depth with
          | O => Some (cat_all (rev acc), [])
          | S _ => None
          end
      | c :: s1 =>
          if negb (is_ascii7 c) then None
          else if Ascii.eqb c ")" then
            match depth with
            | O => None
            | S _ => Some (cat_all (rev acc), s1)
            end
          else if Ascii.eqb c "|" then
            match parse_alt fuel' depth s1 [] with
            | Some (r2, rest) => Some (Alt (cat_all (rev acc)) r2, rest)
            | None => None
            end
          else if Ascii.eqb c "(" then
            match s1 with
            | c2 :: _ =>
                if Ascii.eqb c2 "?" then None
                else
                  match parse_alt fuel' (S depth) s1 [] with
                  | Some (r, rest) => finish_piece r rest
                  | None => None
                  end
            | [] => None
            end
          else if Ascii.eqb c "[" then
            match parse_cset s1 with
            | Some (r, rest) => finish_piece r rest
            | None => None
            end
          else if Ascii.eqb c "\" then
            match s1 with
            | e :: s2 =>
                match parse_escape e with
                | Some it => finish_piece (regex_of_citem it) s2
                | None => None
                end
            | [] => None
            end
          else if Ascii.eqb c "." then finish_piece AnyChar s1
          else if Ascii.eqb c "$" then
            match s1 with
            | q :: _ =>
                match quant_of q with
                | Some _ => None
                | None => parse_alt fuel' depth s1 (Eol :: acc)
                end
            | [] => parse_alt fuel' depth s1 (Eol :: acc)
            end
          else if Ascii.eqb c "^" || Ascii.eqb c "{" || Ascii.eqb c "?"
                  || Ascii.eqb c "*" || Ascii.eqb c "+" then None
          else finish_piece (Chr c) s1
      end
  end.

Definition compile (p : string) : option regex :=
  let s := String.list_ascii_of_string p in
  match parse_alt (S (2 * length s)) 0 s [] with
  | Some (r, []) => Some r
  | _ => None
  end.

(** [re.search(pattern, string, flags)] as a truth value. *)
Definition search (ic : bool) (pattern : string) (text : string) : bool :=
  match compile pattern with
  | Some r => search_from ic r (String.list_ascii_of_string text)
  | None => false
  end.

End Re.

(** * Configuration ([config.py]) *)

(** The fields of the dataclass.  [num_workers] (the CPU count of the host,
    used only to size the thread pool of the HTML parser) is left out;
    [max_depth] is the class attribute, which an instance may override. *)
Record CrawlerConfig : Type := {
  max_pages_per_domain : Z;
  max_concurrent_requests : Z;
  max_connections_per_host : Z;
  batch_size : Z;
  request_delay : Q;
  timeout : Z;
  max_retries : Z;
  verbose : bool;
  product_patterns : option (list string);
  category_patterns : option (list string);
  pagination_patterns : option (list string);
  max_depth : Z
}.

Definition default_product_patterns : list string :=
  [ "/product[s]?/";
    "/item/";
    "/p/";
    "/dp/";
    "-p-\d+";
    "/[^/]+/[^/]+/[^/]+-\d+/buy$";
    "/\d+/buy$" ]%string.

Definition default_category_patterns : list string :=
  [ "/category/";
    "/c/";
    "/collections?/";
    "/shop/";
    "/[^/]+/[^/]+$" ]%string.

Definition default_pagination_patterns : list string :=
  [ "page=(\d+)";
    "p=(\d+)";
    "/page/(\d+)";
    "/p/(\d+)";
    "offset=(\d+)";
    "[\?&]page=(\d+)" ]%string.

(** [__post_init__]: a pattern list left at [None] gets its default. *)
Definition post_init (c : CrawlerConfig) : CrawlerConfig :=
  {| max_pages_per_domain := max_pages_per_domain c;
     max_concurrent_requests := max_concurrent_requests c;
     max_connections_per_host := max_connections_per_host c;
     batch_size := batch_size c;
     request_delay := request_delay c;
     timeout := timeout c;
     max_retries := max_retries c;
     verbose := verbose c;
     product_patterns :=
       match product_patterns c with
       | None => Some default_product_patterns
       | Some l => Some l
       end;
     category_patterns :=
       match category_patterns c with
       | None => Some default_category_patterns
       | Some l => Some l
       end;
     pagination_patterns :=
       match pagination_patterns c with
       | None => Some default_pagination_patterns
       | Some l => Some l
       end;
     max_depth := max_depth c |}.

(** [CrawlerConfig()]: every field at its declared default. *)
Definition default_config : CrawlerConfig :=
  post_init
    {| max_pages_per_domain := 50;
       max_concurrent_requests := 10;
       max_connections_per_host := 10;
       batch_size := 50;
       request_delay := (1 # 2)%Q;
       timeout := 5;
       max_retries := 2;
       verbose := true;
       product_patterns := None;
       category_patterns := None;
       pagination_patterns := None;
       max_depth := 3 |}.

(** The configuration built by [main] in [main.py]. *)
Definition main_config : CrawlerConfig :=
  post_init
    {| max_pages_per_domain := 50;
       max_concurrent_requests := 50;
       max_connections_per_host := 20;
       batch_size := 100;
       request_delay := (1 # 5)%Q;
       timeout := 5;
       max_retries := 2;
       verbose := true;
       product_patterns := None;
       category_patterns := None;
       pagination_patterns := None;
       max_depth := 3 |}.

(** The pattern list held by a field after [__post_init__] has run. *)
Definition patterns (field : option (list string)) : list string :=
  match field with
  | Some l => l
  | None => []
  end.

(** * Strings *)

(** [s.replace(old, new)] for a non-empty [old]: [skip] counts the characters
    of an occurrence of [old] that remain to be dropped. *)
Fixpoint replace_from (old new : string) (skip : nat) (s : string) : string :=
  match s with
  | EmptyString => EmptyString
  | String c s' =>
      match skip with
      | S k => replace_from old new k s'
      | O =>
          if String.prefix old s
          then new +:+ replace_from old new (String.length old - 1) s'
          else String c (replace_from old new 0 s')
      end
  end.

Definition str_replace (old new s : string) : string :=
  replace_from old new 0 s.

(** [s.rstrip('/')]. *)
Fixpoint rstrip_slash (s : string) : string :=
  match s with
  | EmptyString => EmptyString
  | String c s' =>
      let r := rstrip_slash s' in
      if String.eqb r "" && Ascii.eqb c "/" then EmptyString else String c r
  end.

(** [l[:n]] with Python's reading of a negative bound. *)
Definition slice_to {A : Type} (l : list A) (n : Z) : list A :=
  if n <? 0 then take (Z.to_nat (Z.of_nat (length l) + n)) l
  else take (Z.to_nat n) l.

(** [l[i:i+n] for i in range(0, len(l), n)] for a positive [n]. *)
Fixpoint chunks {A : Type} (fuel n : nat) (l : list A) : list (list A) :=
  match fuel, l with
  | _, [] => []
  | O, _ => []
  | S fuel', _ => take n l :: chunks fuel' n (drop n l)
  end.

(** The batches of [crawl_domain]; [None] stands for the [ValueError] that
    [range] raises on a zero step.  A negative step gives an empty range. *)
Definition batches {A : Type} (size : Z) (l : list A) : option (list (list A)) :=
  if size =? 0 then None
  else if size <? 0 then Some []
  else Some (chunks (length l) (Z.to_nat size) l).

(** * Collaborators *)

(** What one HTTP request yields: a response with its status and body, or an
    exception raised by the transport or while the body is read. *)
Inductive outcome : Type :=
| Response (status : Z) (body : string)
| Failure.

(** The world around the fetcher.  [http_get url n] is the outcome of a
    request for [url] when [n] requests for it were issued before;
    [find_hrefs] gives the [href] values of the anchors of a page in document
    order ([BeautifulSoup.find_all('a', href=True)]); [urljoin base href] is
    the joined URL, or [None] when [urllib.parse.urljoin] raises [ValueError]
    (a reference such as [//[], whose authority opens a bracket that is never
    closed); [list_of_set] is the order in which [list(s)] enumerates a
    set. *)
Record World : Type := {
  http_get : string -> nat -> outcome;
  find_hrefs : string -> list string;
  urljoin : string -> string -> option string;
  list_of_set : gset string -> list string
}.

(** [list(s)] enumerates every element of [s] once. *)
Definition enumerates (W : World) : Prop :=
  forall X : gset string, list_of_set W X ≡ₚ elements X.

(** Scheme and authority of an absolute URL: everything before the first
    slash that follows [://]. *)
Fixpoint origin_from (slashes : nat) (s : string) : string :=
  match s with
  | EmptyString => EmptyString
  | String c s' =>
      if Ascii.eqb c "/" then
        match slashes with
        | O => EmptyString
        | S k => String c (origin_from k s')
        end
      else String c (origin_from slashes s')
  end.

Definition origin (url : string) : string := origin_from 2 url.

(** [c] occurs in [s]. *)
Definition has_char (c : ascii) (s : string) : bool :=
  existsb (Ascii.eqb c) (String.list_ascii_of_string s).

(** [urllib.parse.urljoin] on an [https] base, for the references used in
    the scenarios below: an empty reference, a reference whose authority
    opens a bracket that is never closed (refused with [ValueError]), an
    absolute URL, a reference that starts with an authority, and an absolute
    path.  The last case, a relative path, is right for a base that has no
    path of its own; no scenario uses it. *)
Definition urljoin_simple (base href : string) : option string :=
  if String.eqb href "" then Some base
  else if String.prefix "//[" href && negb (has_char "]" href) then None
  else if String.prefix "https://" href || String.prefix "http://" href
  then Some href
  else if String.prefix "//" href then Some ("https:" +:+ href)
  else if String.prefix "/" href then Some (origin base +:+ href)
  else Some (base +:+ "/" +:+ href).

(** * The fetcher ([fetcher.py]) *)

Inductive spawn_kind : Type := FromBatch | Subcategory | Pagination.

(** Observable actions, oldest first.  [Spawn k d url d'] records that a node
    at depth [d] created the coroutine [crawl_category_pages(domain, url, d')]. *)
Inductive event : Type :=
| Get (url : string)
| Delay (seconds : Q)
| Backoff (seconds : Q)
| Spawn (kind : spawn_kind) (parent_depth : Z) (url : string) (depth : Z).

(** The mutable attributes of a [UrlsFetcher]; [semaphore] is the number of
    free slots of the [asyncio.Semaphore]. *)
Record Fetcher : Type := {
  visited_categories : gmap string (gset string);
  product_urls : gmap string (gset string);
  visited_urls : gmap string (gset string);
  semaphore : Z;
  trace : list event
}.

(** How a coroutine ends: with a value, with an exception, waiting for ever
    for a semaphore slot, or cut short because the model ran out of fuel. *)
Inductive result (A : Type) : Type :=
| Ret (a : A)
| Raise
| Blocked
| OutOfFuel.

Arguments Ret {A} a.
Arguments Raise {A}.
Arguments Blocked {A}.
Arguments OutOfFuel {A}.

Definition M (A : Type) : Type := Fetcher -> result A * Fetcher.

Definition ret {A : Type} (a : A) : M A := fun st => (Ret a, st).

Definition bind {A B : Type} (c : M A) (k : A -> M B) : M B :=
  fun st =>
    match c st with
    | (Ret a, st') => k a st'
    | (Raise, st') => (Raise, st')
    | (Blocked, st') => (Blocked, st')
    | (OutOfFuel, st') => (OutOfFuel, st')
    end.

Notation "x <- c1 ;; c2" := (bind c1 (fun x => c2))
  (at level 100, c1 at next level, right associativity).
Notation "c1 ;; c2" := (bind c1 (fun _ => c2))
  (at level 100, right associativity).

Definition raise {A : Type} : M A := fun st => (Raise, st).
Definition out_of_fuel {A : Type} : M A := fun st => (OutOfFuel, st).
Definition get_state : M Fetcher := fun st => (Ret st, st).

(** [try: body except Exception: handler]. *)
Definition try_except {A : Type} (body handler : M A) : M A :=
  fun st =>
    match body st with
    | (Raise, st') => handler st'
    | other => other
    end.

Definition log (e : event) : M unit :=
  fun st =>
    (Ret tt,
     {| visited_categories := visited_categories st;
        product_urls := product_urls st;
        visited_urls := visited_urls st;
        semaphore := semaphore st;
        trace := trace st ++ [e] |}).

Definition set_semaphore (v : Z) (st : Fetcher) : Fetcher :=
  {| visited_categories := visited_categories st;
     product_urls := product_urls st;
     visited_urls := visited_urls st;
     semaphore := v;
     trace := trace st |}.

(** [async with self.semaphore: body].  With no free slot the coroutine waits;
    as coroutines run one at a time here, nothing will free one.  The slot is
    given back when the body returns or raises. *)
Definition with_semaphore {A : Type} (body : M A) : M A :=
  fun st =>
    if semaphore st <=? 0 then (Blocked, st)
    else
      match body (set_semaphore (semaphore st - 1) st) with
      | (Ret a, st') => (Ret a, set_semaphore (semaphore st' + 1) st')
      | (Raise, st') => (Raise, set_semaphore (semaphore st' + 1) st')
      | (Blocked, st') => (Blocked, st')
      | (OutOfFuel, st') => (OutOfFuel, st')
      end.

(** [self.visited_categories[domain].add(url)]. *)
Definition add_visited (domain url : string) : M unit :=
  fun st =>
    (Ret tt,
     {| visited_categories :=
          <[domain := {[url]} ∪ (visited_categories st !!! domain)]>
            (visited_categories st);
        product_urls := product_urls st;
        visited_urls := visited_urls st;
        semaphore := semaphore st;
        trace := trace st |}).

(** [self.product_urls[domain].update(products)]. *)
Definition update_products (domain : string) (products : gset string) : M unit :=
  fun st =>
    (Ret tt,
     {| visited_categories := visited_categories st;
        product_urls :=
          <[domain := (product_urls st !!! domain) ∪ products]> (product_urls st);
        visited_urls := visited_urls st;
        semaphore := semaphore st;
        trace := trace st |}).

(** [await asyncio.gather] of the tasks, in the schedule that runs each
    coroutine to its end before the next one starts.  The first coroutine
    that raises, or that waits for ever, ends the whole. *)
Fixpoint gather (tasks : list (M unit)) : M unit :=
  match tasks with
  | [] => ret tt
  | t :: ts => t ;; gather ts
  end.

Definition is_get (url : string) (e : event) : bool :=
  match e with
  | Get u => String.eqb u url
  | _ => false
  end.

(** Number of requests for [url] issued so far. *)
Definition requests_of (url : string) (tr : list event) : nat :=
  length (List.filter (is_get url) tr).

(** [2 ** retry_count] seconds. *)
Definition backoff_seconds (retry_count : Z) : Q := Qpower (2 # 1) retry_count.

Section UrlsFetcher.

Context (cfg : CrawlerConfig) (W : World).

(** [__init__]: empty dictionaries and a semaphore with
    [max_concurrent_requests] slots; [asyncio.Semaphore] raises
    [ValueError] on a negative value ([None]). *)
Definition UrlsFetcher_init : option Fetcher :=
  if max_concurrent_requests cfg <? 0 then None
  else Some {| visited_categories := ∅;
               product_urls := ∅;
               visited_urls := ∅;
               semaphore := max_concurrent_requests cfg;
               trace := [] |}.

(** [async with session.get(url) as response]: one request; a transport
    failure raises.  The session itself ([get_session]) is not modelled. *)
Definition session_get (url : string) : M (Z * string) :=
  fun st =>
    let n := requests_of url (trace st) in
    match log (Get url) st with
    | (_, st') =>
        match http_get W url n with
        | Response status body => (Ret (status, body), st')
        | Failure => (Raise, st')
        end
    end.

(** [fetch_url]; the recursion is on the number of retries left.  The value
    of the [try] statement is [Some v] when a [return v] was reached inside
    it and [None] when control falls through to the final [return None]. *)
Fixpoint fetch_url_from (left : nat) (url : string) (retry_count : Z)
    : M (option string) :=
  let retry : M (option (option string)) :=
    match left with
    | O => out_of_fuel
    | S left' =>
        v <- fetch_url_from left' url (retry_count + 1) ;;
        ret (Some v)
    end in
  with_semaphore
    (r <- try_except
            ((if negb (Qle_bool (request_delay cfg) 0)
              then log (Delay (request_delay cfg)) else ret tt) ;;
             response <- session_get url ;;
             if fst response =? 200 then ret (Some (Some (snd response)))
             else if (fst response =? 429) && (retry_count <? max_retries cfg)
             then log (Backoff (backoff_seconds retry_count)) ;; retry
             else ret None)
            (if retry_count <? max_retries cfg
             then log (Backoff (backoff_seconds retry_count)) ;; retry
             else ret None) ;;
     match r with
     | Some v => ret v
     | None => ret None
     end).

Definition fetch_url (url : string) (retry_count : Z) : M (option string) :=
  fetch_url_from (Z.to_nat (max_retries cfg - retry_count)) url retry_count.

Definition re_any (pats : list string) (url : string) : bool :=
  existsb (fun pattern => Re.search true pattern url) pats.

Definition is_product_url (url : string) : bool :=
  re_any (patterns (product_patterns cfg)) url.

Definition is_category_url (url : string) : bool :=
  re_any (patterns (category_patterns cfg)) url.

Definition is_pagination_url (url : string) : bool :=
  re_any (patterns (pagination_patterns cfg)) url.

(** The tests that the loop of [process_page] makes on the full URL of a
    link. *)
Definition classify_link (visited : gset string)
    (acc : gset string * gset string * gset string) (full_url : string)
    : gset string * gset string * gset string :=
  let '(products, subcategories, pagination_links) := acc in
  let '(products, subcategories) :=
    if is_product_url full_url then ({[full_url]} ∪ products, subcategories)
    else if is_category_url full_url && negb (bool_decide (full_url ∈ visited))
    then (products, {[full_url]} ∪ subcategories)
    else (products, subcategories) in
  let pagination_links :=
    if is_pagination_url full_url then {[full_url]} ∪ pagination_links
    else pagination_links in
  (products, subcategories, pagination_links).

(** One turn of the loop over the links of [process_page]: the link is
    joined to the base, then classified.  [None] stands for the
    [ValueError] of [urljoin], which ends the loop. *)
Definition scan_link (domain : string) (visited : gset string)
    (acc : option (gset string * gset string * gset string)) (href : string)
    : option (gset string * gset string * gset string) :=
  match acc with
  | None => None
  | Some sets =>
      match urljoin W ("https://" +:+ domain) href with
      | None => None
      | Some full_url => Some (classify_link visited sets full_url)
      end
  end.

Definition scan_links (domain : string) (visited : gset string)
    (hrefs : list string)
    : option (gset string * gset string * gset string) :=
  foldl (scan_link domain visited) (Some (∅, ∅, ∅)) hrefs.

Definition process_page (domain page_url : string)
    : M (gset string * list string * list string) :=
  content <- fetch_url page_url 0 ;;
  match content with
  | Some body =>
      if String.eqb body "" then ret (∅, [], [])
      else
        st <- get_state ;;
        match scan_links domain (visited_categories st !!! domain)
                (find_hrefs W body) with
        | Some (products, subcategories, pagination_links) =>
            ret (products, list_of_set W subcategories,
                 list_of_set W pagination_links)
        | None => raise
        end
  | None => ret (∅, [], [])
  end.

Definition unvisited (domain : string) (st : Fetcher) (urls : list string)
    : list string :=
  filter (fun u => u ∉ visited_categories st !!! domain) urls.

Definition spawn_all (kind : spawn_kind) (parent_depth depth : Z)
    (urls : list string) : M unit :=
  gather (map (fun u => log (Spawn kind parent_depth u depth)) urls).

Fixpoint crawl_category_pages (fuel : nat) (domain start_url : string)
    (depth : Z) : M unit :=
  match fuel with
  | O => out_of_fuel
  | S fuel' =>
      st <- get_state ;;
      if bool_decide (start_url ∈ visited_categories st !!! domain)
         || (max_depth cfg <? depth)
      then ret tt
      else
        add_visited domain start_url ;;
        found <- process_page domain start_url ;;
        let '(products, subcategories, pagination_links) := found in
        update_products domain products ;;
        (if (depth <? max_depth cfg)
            && negb (bool_decide (subcategories = []))
         then
           st <- get_state ;;
           let remaining_pages :=
             max_pages_per_domain cfg
             - Z.of_nat (size (visited_categories st !!! domain)) in
           let targets :=
             unvisited domain st (slice_to subcategories remaining_pages) in
           spawn_all Subcategory depth (depth + 1) targets ;;
           gather (map (fun page_url =>
                          crawl_category_pages fuel' domain page_url (depth + 1))
                       targets)
         else ret tt) ;;
        (if negb (bool_decide (pagination_links = []))
         then
           st <- get_state ;;
           let targets := unvisited domain st pagination_links in
           spawn_all Pagination depth depth targets ;;
           gather (map (fun page_url =>
                          crawl_category_pages fuel' domain page_url depth)
                       targets)
         else ret tt)
  end.

Definition process_batch (fuel : nat) (domain : string) (urls : list string)
    : M unit :=
  st <- get_state ;;
  let targets := unvisited domain st urls in
  spawn_all FromBatch 0 0 targets ;;
  gather (map (fun url => crawl_category_pages fuel domain url 0) targets).

Definition normalize_domain (domain : string) : string :=
  rstrip_slash (str_replace "http://" "" (str_replace "https://" "" domain)).

(** One turn of the loop over the links of the root page; [None] stands
    for the [ValueError] of [urljoin]. *)
Definition root_link (base_url : string) (acc : option (gset string))
    (href : string) : option (gset string) :=
  match acc with
  | None => None
  | Some category_urls =>
      match urljoin W base_url href with
      | None => None
      | Some full_url =>
          Some (if is_category_url full_url
                then {[full_url]} ∪ category_urls else category_urls)
      end
  end.

Definition root_categories (base_url : string) (hrefs : list string)
    : option (gset string) :=
  foldl (root_link base_url) (Some ∅) hrefs.

Definition crawl_domain (fuel : nat) (domain : string) : M unit :=
  let domain := normalize_domain domain in
  let base_url := "https://" +:+ domain in
  st <- get_state ;;
  if bool_decide (base_url ∈ visited_urls st !!! domain) then ret tt
  else
    content <- fetch_url base_url 0 ;;
    match content with
    | Some body =>
        if String.eqb body "" then ret tt
        else
          match root_categories base_url (find_hrefs W body) with
          | None => raise
          | Some category_urls =>
              match batches (batch_size cfg) (list_of_set W category_urls) with
              | None => raise
              | Some category_batches =>
                  gather (map (process_batch fuel domain) category_batches)
              end
          end
    | None => ret tt
    end.

Definition crawl_domains (fuel : nat) (domains : list string) : M unit :=
  gather (map (crawl_domain fuel) domains).

(** The dictionary that [save_results] serialises: each domain that has
    an entry in [product_urls], with the list of its URLs. *)
Definition save_results (st : Fetcher) : gmap string (list string) :=
  list_of_set W <$> product_urls st.

End UrlsFetcher.

(** * Scenarios *)

(** A toy stand-in for the HTML parser: the values of the [href='...']
    attributes of a page, in document order. *)
Fixpoint until_quote (s : string) : string :=
  match s with
  | EmptyString => EmptyString
  | String c s' => if Ascii.eqb c "'" then EmptyString else String c (until_quote s')
  end.

Fixpoint string_drop (n : nat) (s : string) : string :=
  match n, s with
  | S k, String _ s' => string_drop k s'
  | _, _ => s
  end.

Fixpoint hrefs_of (s : string) : list string :=
  match s with
  | EmptyString => []
  | String _ s' =>
      if String.prefix "href='" s
      then until_quote (string_drop 6 s) :: hrefs_of s'
      else hrefs_of s'
  end.

(** A static web site: each listed URL answers 200 with its body on every
    request, every other URL answers 404. *)
Fixpoint site_get (pages : list (string * string)) (url : string) : outcome :=
  match pages with
  | [] => Response 404 "Not Found"
  | (u, body) :: rest =>
      if String.eqb u url then Response 200 body else site_get rest url
  end.

Definition site_world (pages : list (string * string))
    (order : gset string -> list string) : World :=
  {| http_get := fun url _ => site_get pages url;
     find_hrefs := hrefs_of;
     urljoin := urljoin_simple;
     list_of_set := order |}.

(** The shop of the end-to-end scenario. *)
Definition shop_pages : list (string * string) :=
  [ ("https://shop.test", "<a href='/c/shoes'>Shoes</a>");
    ("https://shop.test/c/shoes",
     "<a href='/p/42'>Boot</a> <a href='/c/shoes?page=2'>Next</a>");
    ("https://shop.test/c/shoes?page=2", "<p>No more products</p>");
    ("https://shop.test/p/42", "<h1>Boot</h1>") ]%string.

(** A shop whose two categories each list three subcategories. *)
Definition budget_pages : list (string * string) :=
  [ ("https://shop.test", "<a href='/c/a'>A</a> <a href='/c/b'>B</a>");
    ("https://shop.test/c/a",
     "<a href='/c/a/1'>1</a> <a href='/c/a/2'>2</a> <a href='/c/a/3'>3</a>");
    ("https://shop.test/c/b",
     "<a href='/c/b/1'>1</a> <a href='/c/b/2'>2</a> <a href='/c/b/3'>3</a>");
    ("https://shop.test/c/a/1", "<p>a1</p>");
    ("https://shop.test/c/a/2", "<p>a2</p>");
    ("https://shop.test/c/a/3", "<p>a3</p>");
    ("https://shop.test/c/b/1", "<p>b1</p>");
    ("https://shop.test/c/b/2", "<p>b2</p>");
    ("https://shop.test/c/b/3", "<p>b3</p>") ]%string.

Definition budget_config : CrawlerConfig :=
  post_init
    {| max_pages_per_domain := 1;
       max_concurrent_requests := 10;
       max_connections_per_host := 10;
       batch_size := 50;
       request_delay := (1 # 2)%Q;
       timeout := 5;
       max_retries := 2;
       verbose := true;
       product_patterns := None;
       category_patterns := None;
       pagination_patterns := None;
       max_depth := 3 |}.

(** A chain of nested categories; the page at depth 3 links to a deeper
    category and to its own second page. *)
Definition deep_pages : list (string * string) :=
  [ ("https://shop.test", "<a href='/c/a'>A</a>");
    ("https://shop.test/c/a", "<a href='/c/a/b'>B</a>");
    ("https://shop.test/c/a/b", "<a href='/c/a/b/c'>C</a>");
    ("https://shop.test/c/a/b/c", "<a href='/c/a/b/c/d'>D</a>");
    ("https://shop.test/c/a/b/c/d",
     "<a href='/c/a/b/c/d/e'>E</a> <a href='/c/a/b/c/d?page=2'>Next</a>");
    ("https://shop.test/c/a/b/c/d?page=2", "<p>page 2</p>");
    ("https://shop.test/c/a/b/c/d/e", "<p>E</p>") ]%string.

(** A shop served under a path, whose front page links to itself. *)
Definition selflink_pages : list (string * string) :=
  [ ("https://shop.test/shop", "<a href='/shop'>Shop</a>") ]%string.

(** A server that answers every request with the same status. *)
Definition status_world (status : Z) : World :=
  {| http_get := fun _ _ => Response status "";
     find_hrefs := hrefs_of;
     urljoin := urljoin_simple;
     list_of_set := elements |}.

(** A page whose single link is at once product- and category-classified. *)
Definition overlap_pages : list (string * string) :=
  [ ("https://shop.test/c/shoes", "<a href='/p/42'>Boot</a>") ]%string.

(** The fetcher right after [UrlsFetcher(cfg)]. *)
Definition fresh (cfg : CrawlerConfig) : Fetcher :=
  {| visited_categories := ∅;
     product_urls := ∅;
     visited_urls := ∅;
     semaphore := max_concurrent_requests cfg;
     trace := [] |}.

(** * Specification vocabulary *)

(** Declarative reading of a regular expression: [matches ic r w rest] says
    that [r] matches the word [w] when [rest] is what follows it in the
    subject string (the end-of-string anchor looks at [rest]). *)
Inductive matches (ic : bool) : Re.regex -> list ascii -> list ascii -> Prop :=
| MEps rest : matches ic Re.Eps [] rest
| MChr c x rest :
    Re.chr_eq ic c x = true -> matches ic (Re.Chr c) [x] rest
| MAny x rest :
    Ascii.eqb x Re.newline = false -> matches ic Re.AnyChar [x] rest
| MSet negated items x rest :
    Re.cset_match ic negated items x = true ->
    matches ic (Re.CSet negated items) [x] rest
| MCat r1 r2 w1 w2 rest :
    matches ic r1 w1 (w2 ++ rest) -> matches ic r2 w2 rest ->
    matches ic (Re.Cat r1 r2) (w1 ++ w2) rest
| MAltL r1 r2 w rest : matches ic r1 w rest -> matches ic (Re.Alt r1 r2) w rest
| MAltR r1 r2 w rest : matches ic r2 w rest -> matches ic (Re.Alt r1 r2) w rest
| MStarNil r rest : matches ic (Re.Star r) [] rest
| MStarCons r w1 w2 rest :
    matches ic r w1 (w2 ++ rest) -> matches ic (Re.Star r) w2 rest ->
    matches ic (Re.Star r) (w1 ++ w2) rest
| MEol rest : Re.at_end rest = true -> matches ic Re.Eol [] rest.

(** The state [st] with [evs] appended to its trace. *)
Definition add_events (st : Fetcher) (evs : list event) : Fetcher :=
  {| visited_categories := visited_categories st;
     product_urls := product_urls st;
     visited_urls := visited_urls st;
     semaphore := semaphore st;
     trace := trace st ++ evs |}.

(** The events of one attempt of [fetch_url]. *)
Definition attempt_events (cfg : CrawlerConfig) (url : string) : list event :=
  (if negb (Qle_bool (request_delay cfg) 0) then [Delay (request_delay cfg)] else [])
  ++ [Get url].

(** The events of an attempt at [retry_count] followed by [left] retries. *)
Fixpoint retry_events (cfg : CrawlerConfig) (url : string) (retry_count : Z)
    (left : nat) : list event :=
  attempt_events cfg url
  ++ match left with
     | O => []
     | S left' =>
         Backoff (backoff_seconds retry_count)
         :: retry_events cfg url (retry_count + 1) left'
     end.

(** What the traversal may log: requests and sleeps, and spawns that respect
    the depth rules. *)
Definition ok_event (cfg : CrawlerConfig) (e : event) : Prop :=
  match e with
  | Spawn FromBatch parent _ depth => parent = 0 /\ depth = 0
  | Spawn Subcategory parent _ depth =>
      parent < max_depth cfg /\ depth = parent + 1
  | Spawn Pagination parent _ depth => depth = parent
  | _ => True
  end.

(** One run of a coroutine takes [st] to [st']: [visited_urls] is untouched,
    the other two dictionaries only grow, every URL that becomes visited
    satisfies [Pv], and the trace is extended by allowed events. *)
Record step_ok (cfg : CrawlerConfig) (Pv : string -> Prop) (st st' : Fetcher)
    : Prop := {
  ok_visited_urls : visited_urls st' = visited_urls st;
  ok_products :
    forall d, product_urls st !!! d ⊆ product_urls st' !!! d;
  ok_visited :
    forall d, visited_categories st !!! d ⊆ visited_categories st' !!! d;
  ok_new_visited :
    forall d u, u ∈ visited_categories st' !!! d ->
                u ∈ visited_categories st !!! d \/ Pv u;
  ok_trace :
    exists evs, trace st' = trace st ++ evs /\ Forall (ok_event cfg) evs
}.

(** Every visited URL has been requested. *)
Definition visited_fetched (st : Fetcher) : Prop :=
  forall d u, u ∈ visited_categories st !!! d -> Get u ∈ trace st.

(** [url] contains [/p/] followed by a digit. *)
Definition has_p_digit (url : string) : Prop :=
  exists pre d post,
    url = pre +:+ "/p/" +:+ String d post /\ Re.is_digit d = true.

(** The full URL that [process_page] makes of a link, if [urljoin] gives
    one. *)
Definition page_link (W : World) (domain href : string) : option string :=
  urljoin W ("https://" +:+ domain) href.

(** [r] matches a prefix of [s] whose remainder the continuation accepts. *)
Definition accepts (ic : bool) (r : Re.regex) (s : list ascii)
    (k : list ascii -> bool) : Prop :=
  exists w rest, s = w ++ rest /\ matches ic r w rest /\ k rest = true.

(** Leaving [async with self.semaphore]: the slot is given back when the body
    returned or raised. *)
Definition release {A : Type} (out : result A * Fetcher) : result A * Fetcher :=
  match out with
  | (Ret a, st) => (Ret a, set_semaphore (semaphore st + 1) st)
  | (Raise, st) => (Raise, set_semaphore (semaphore st + 1) st)
  | other => other
  end.

(** Requests and sleeps, as opposed to spawns. *)
Definition is_io (e : event) : Prop :=
  match e with
  | Spawn _ _ _ _ => False
  | _ => True
  end.

(** An outcome after which [fetch_url] retries while retries are left. *)
Definition retryable (o : outcome) : Prop :=
  match o with
  | Failure => True
  | Response status _ => status = 429
  end.

(** The state after the semaphore is taken and one request is sent. *)
Definition attempted (cfg : CrawlerConfig) (url : string) (st : Fetcher) : Fetcher :=
  add_events (set_semaphore (semaphore st - 1) st) (attempt_events cfg url).

(** The retry of [fetch_url]: the back-off sleep, then the nested call made
    while the slot of the failed attempt is still held. *)
Definition retried (cfg : CrawlerConfig) (W : World) (left : nat) (url : string)
    (retry_count : Z) (st : Fetcher) : result (option string) * Fetcher :=
  let st1 :=
    add_events (attempted cfg url st) [Backoff (backoff_seconds retry_count)] in
  match left with
  | O => (OutOfFuel, st1)
  | S left' => release (fetch_url_from cfg W left' url (retry_count + 1) st1)
  end.

(** What [process_page] returns for a non-empty body, read in state [st];
    [None] when a link of the page cannot be joined. *)
Definition page_result (cfg : CrawlerConfig) (W : World) (domain : string)
    (st : Fetcher) (body : string)
    : option (gset string * list string * list string) :=
  out ← scan_links cfg W domain (visited_categories st !!! domain)
          (find_hrefs W body);
  Some (out.1.1, list_of_set W out.1.2, list_of_set W out.2).

(** [pattern] is found in [url] by [re.search]: the pattern compiles and
    matches some substring of [url], read in its context. *)
Definition found_in (ic : bool) (pattern url : string) : Prop :=
  exists r pre w rest,
    Re.compile pattern = Some r
    /\ String.list_ascii_of_string url = pre ++ w ++ rest
    /\ matches ic r w rest.

(** [url] is the full URL of a link of the page with this body. *)
Definition link_of (W : World) (domain body url : string) : Prop :=
  exists href, href ∈ find_hrefs W body /\ page_link W domain href = Some url.

(** Every link of the page with this body can be joined to the base of
    [domain]. *)
Definition links_join (W : World) (domain body : string) : Prop :=
  forall href, href ∈ find_hrefs W body -> is_Some (page_link W domain href).

(** What each kind of spawn records about depths. *)
Definition spawn_rule (cfg : CrawlerConfig) (kind : spawn_kind)
    (parent depth : Z) : Prop :=
  match kind with
  | FromBatch => parent = 0 /\ depth = 0
  | Subcategory => parent < max_depth cfg /\ depth = parent + 1
  | Pagination => depth = parent
  end.

Definition is_subcategory_spawn (e : event) : bool :=
  match e with
  | Spawn Subcategory _ _ _ => true
  | _ => false
  end.

(** The recursive calls of [crawl_category_pages], with [fuel] left for each
    of them: the subcategories cut to the remaining budget, then the
    pagination links. *)
Definition follow (cfg : CrawlerConfig) (W : World) (fuel : nat)
    (domain : string) (depth : Z) (subcategories pagination_links : list string)
    : M unit :=
  (if (depth <? max_depth cfg) && negb (bool_decide (subcategories = []))
   then
     st <- get_state ;;
     let remaining_pages :=
       max_pages_per_domain cfg
       - Z.of_nat (size (visited_categories st !!! domain)) in
     let targets :=
       unvisited domain st (slice_to subcategories remaining_pages) in
     spawn_all Subcategory depth (depth + 1) targets ;;
     gather (map (fun page_url =>
                    crawl_category_pages cfg W fuel domain page_url (depth + 1))
                 targets)
   else ret tt) ;;
  (if negb (bool_decide (pagination_links = []))
   then
     st <- get_state ;;
     let targets := unvisited domain st pagination_links in
     spawn_all Pagination depth depth targets ;;
     gather (map (fun page_url =>
                    crawl_category_pages cfg W fuel domain page_url depth)
                 targets)
   else ret tt).

(** The part of [crawl_category_pages] that follows [process_page]. *)
Definition expand (cfg : CrawlerConfig) (W : World) (fuel : nat)
    (domain : string) (depth : Z)
    (found : gset string * list string * list string) : M unit :=
  let '(products, subcategories, pagination_links) := found in
  update_products domain products ;;
  follow cfg W fuel domain depth subcategories pagination_links.

(** The runs of the scenarios. *)
Definition shop_run : result unit * Fetcher :=
  crawl_domain default_config (site_world shop_pages elements) 10 "shop.test"
    (fresh default_config).

Definition budget_run : result unit * Fetcher :=
  crawl_domain budget_config (site_world budget_pages elements) 10 "shop.test"
    (fresh budget_config).

Definition deep_run : result unit * Fetcher :=
  crawl_domain default_config (site_world deep_pages elements) 10 "shop.test"
    (fresh default_config).

Definition selflink_run : result unit * Fetcher :=
  crawl_domain default_config (site_world selflink_pages elements) 10
    "https://shop.test/shop/" (fresh default_config).

Definition twice_run : result unit * Fetcher :=
  crawl_domains default_config (site_world shop_pages elements) 10
    ["shop.test"; "shop.test"]%string (fresh default_config).

(** What a traversal that returns has achieved: it keeps every visited URL
    requested, and [url] is visited when the depth allows it. *)
Definition crawled (cfg : CrawlerConfig) (domain url : string) (depth : Z)
    (st st' : Fetcher) : Prop :=
  (visited_fetched st -> visited_fetched st')
  /\ (depth <= max_depth cfg -> url ∈ visited_categories st' !!! domain).

(** * Vocabulary of the further properties *)

(** [CrawlerConfig(max_concurrent_requests=slots, batch_size=size)]. *)
Definition config_with (slots size : Z) : CrawlerConfig :=
  post_init
    {| max_pages_per_domain := 50;
       max_concurrent_requests := slots;
       max_connections_per_host := 10;
       batch_size := size;
       request_delay := (1 # 2)%Q;
       timeout := 5;
       max_retries := 2;
       verbose := true;
       product_patterns := None;
       category_patterns := None;
       pagination_patterns := None;
       max_depth := 3 |}.

(** The coroutine [c] keeps the property [I] of the fetcher, however it ends,
    and the value it returns satisfies [Q]. *)
Definition keeps {A : Type} (I : Fetcher -> Prop) (Q : A -> Prop) (c : M A)
    : Prop :=
  forall st, I st -> I (c st).2 /\ forall a, (c st).1 = Ret a -> Q a.

(** [I] reads the three dictionaries only, not the semaphore or the trace. *)
Definition on_dicts (I : Fetcher -> Prop) : Prop :=
  forall st st',
    visited_categories st' = visited_categories st ->
    product_urls st' = product_urls st ->
    visited_urls st' = visited_urls st ->
    I st -> I st'.

(** Every recorded product is product-classified. *)
Definition products_classified (cfg : CrawlerConfig) (st : Fetcher) : Prop :=
  forall d u, u ∈ product_urls st !!! d -> is_product_url cfg u = true.

(** The entries of [domain] in the two dictionaries that the traversal
    writes. *)
Definition entries (domain : string) (st : Fetcher) : gset string * gset string :=
  (visited_categories st !!! domain, product_urls st !!! domain).

(** The last character of [s] is a slash. *)
Definition ends_with_slash (s : string) : Prop :=
  exists s', s = s' +:+ "/".

(** No character of [s] is a slash. *)
Definition slash_free (s : string) : Prop :=
  Forall (fun c => c <> "/"%char) (String.list_ascii_of_string s).

(** Deduplication inside the traversal of [domain]: no URL has been
    requested more than [max_retries + 1] times (the requests of a single
    [fetch_url] call), and none that is not marked visited has been requested
    at all. *)
Definition requested_once (cfg : CrawlerConfig) (domain : string)
    (st : Fetcher) : Prop :=
  forall u,
    (requests_of u (trace st) <= Z.to_nat (max_retries cfg) + 1)%nat
    /\ (u ∉ visited_categories st !!! domain -> requests_of u (trace st) = 0%nat).

(** * The scope of the pattern model *)

(** Every pattern of the list is read by [Re.compile]: it is a well-formed
    pattern of the modelled fragment, so [re.search] does not raise
    [re.error] on it. *)
Definition in_fragment (pats : list string) : Prop :=
  Forall (fun p => is_Some (Re.compile p)) pats.

(** The three pattern lists of the configuration are in the fragment. *)
Definition supported (cfg : CrawlerConfig) : Prop :=
  in_fragment (patterns (product_patterns cfg))
  /\ in_fragment (patterns (category_patterns cfg))
  /\ in_fragment (patterns (pagination_patterns cfg)).

(** Every character of [s] is a 7-bit character. *)
Definition ascii_text (s : string) : Prop :=
  Forall (fun c => (nat_of_ascii c < 128)%nat) (String.list_ascii_of_string s).

(** * The meaning of a pattern, stated apart from the matcher

    What a case-insensitive search of 7-bit text means, written on character
    codes and without the functions of [Re]: two characters are the same
    letter when they are equal or are the two cases of one of the 26
    letters. *)
Definition same_letter (c x : ascii) : Prop :=
  let m := nat_of_ascii c in
  let n := nat_of_ascii x in
  m = n
  \/ ((65 <= m <= 90)%nat /\ n = (m + 32)%nat)
  \/ ((65 <= n <= 90)%nat /\ m = (n + 32)%nat).

Definition digit_char (x : ascii) : Prop := (48 <= nat_of_ascii x <= 57)%nat.

Definition item_has (it : Re.citem) (x : ascii) : Prop :=
  match it with
  | Re.CChar c => same_letter c x
  | Re.CRange lo hi =>
      exists y, same_letter y x
                /\ (nat_of_ascii lo <= nat_of_ascii y <= nat_of_ascii hi)%nat
  | Re.CDigit => digit_char x
  | Re.CNonDigit => ~ digit_char x
  end.

Definition set_has (negated : bool) (items : list Re.citem) (x : ascii) : Prop :=
  if negated then ~ Exists (fun it => item_has it x) items
  else Exists (fun it => item_has it x) items.

(** [denotes r w rest]: the expression [r], with IGNORECASE, matches the word
    [w] when [rest] follows it in the subject. *)
Inductive denotes : Re.regex -> list ascii -> list ascii -> Prop :=
| DEps rest : denotes Re.Eps [] rest
| DChr c x rest : same_letter c x -> denotes (Re.Chr c) [x] rest
| DAny x rest : nat_of_ascii x <> 10%nat -> denotes Re.AnyChar [x] rest
| DSet negated items x rest :
    set_has negated items x -> denotes (Re.CSet negated items) [x] rest
| DCat r1 r2 w1 w2 rest :
    denotes r1 w1 (w2 ++ rest) -> denotes r2 w2 rest ->
    denotes (Re.Cat r1 r2) (w1 ++ w2) rest
| DAltL r1 r2 w rest : denotes r1 w rest -> denotes (Re.Alt r1 r2) w rest
| DAltR r1 r2 w rest : denotes r2 w rest -> denotes (Re.Alt r1 r2) w rest
| DStarNil r rest : denotes (Re.Star r) [] rest
| DStarCons r w1 w2 rest :
    denotes r w1 (w2 ++ rest) -> denotes (Re.Star r) w2 rest ->
    denotes (Re.Star r) (w1 ++ w2) rest
| DEol rest :
    rest = [] \/ (exists c, rest = [c] /\ nat_of_ascii c = 10%nat) ->
    denotes Re.Eol [] rest.

(** [r] matches somewhere in [url]. *)
Definition occurs (r : Re.regex) (url : string) : Prop :=
  exists pre w rest,
    String.list_ascii_of_string url = pre ++ w ++ rest /\ denotes r w rest.

(** ** The default patterns as expressions *)

(** The characters of [s], one after another. *)
Definition lit (s : string) : list Re.regex :=
  map Re.Chr (String.list_ascii_of_string s).

Definition seq (rs : list Re.regex) : Re.regex := foldr Re.Cat Re.Eps rs.

(** [r+] and [r?]. *)
Definition some (r : Re.regex) : Re.regex := Re.Cat r (Re.Star r).
Definition maybe (r : Re.regex) : Re.regex := Re.Alt r Re.Eps.

(** [\d], [[^c]], [[...]] and the group [(\d+)]. *)
Definition digit : Re.regex := Re.CSet false [Re.CDigit].
Definition but (c : ascii) : Re.regex := Re.CSet true [Re.CChar c].
Definition one_of (s : string) : Re.regex :=
  Re.CSet false (map Re.CChar (String.list_ascii_of_string s)).
Definition digits : Re.regex := seq [some digit].

Definition product_regexes : list Re.regex :=
  [ seq (lit "/product" ++ [maybe (one_of "s")] ++ lit "/");
    seq (lit "/item/");
    seq (lit "/p/");
    seq (lit "/dp/");
    seq (lit "-p-" ++ [some digit]);
    seq (lit "/" ++ [some (but "/")] ++ lit "/" ++ [some (but "/")]
         ++ lit "/" ++ [some (but "/")] ++ lit "-" ++ [some digit]
         ++ lit "/buy" ++ [Re.Eol]);
    seq (lit "/" ++ [some digit] ++ lit "/buy" ++ [Re.Eol]) ].

Definition category_regexes : list Re.regex :=
  [ seq (lit "/category/");
    seq (lit "/c/");
    seq (lit "/collection" ++ [maybe (Re.Chr "s")] ++ lit "/");
    seq (lit "/shop/");
    seq (lit "/" ++ [some (but "/")] ++ lit "/" ++ [some (but "/")]
         ++ [Re.Eol]) ].

Definition pagination_regexes : list Re.regex :=
  [ seq (lit "page=" ++ [digits]);
    seq (lit "p=" ++ [digits]);
    seq (lit "/page/" ++ [digits]);
    seq (lit "/p/" ++ [digits]);
    seq (lit "offset=" ++ [digits]);
    seq ([one_of "?&"] ++ lit "page=" ++ [digits]) ].

(** * Further scenarios *)

(** A site some of whose URLs answer 429 on every request. *)
Definition busy_world (pages : list (string * string)) (busy : list string)
    (order : gset string -> list string) : World :=
  {| http_get := fun url _ =>
       if bool_decide (url ∈ busy) then Response 429 "" else site_get pages url;
     find_hrefs := hrefs_of;
     urljoin := urljoin_simple;
     list_of_set := order |}.

(** A category page that links to a product and to a subcategory. *)
Definition blocked_pages : list (string * string) :=
  [ ("https://shop.test/c/shoes",
     "<a href='/p/42'>Boot</a> <a href='/c/boots'>Boots</a>");
    ("https://shop.test/p/42", "<h1>Boot</h1>") ]%string.

(** A category page one of whose links cannot be joined. *)
Definition broken_pages : list (string * string) :=
  [ ("https://shop.test/c/shoes",
     "<a href='/p/42'>Boot</a> <a href='//['>Broken</a>") ]%string.

Set Warnings "-clear-no-such-hyp".

Lemma list_ascii_app (a b : string) :
  String.list_ascii_of_string (a +:+ b)
  = String.list_ascii_of_string a ++ String.list_ascii_of_string b.
Proof. induction a as [|c a IH]; simpl; [reflexivity | now rewrite IH]. Qed.

Lemma search_from_suffix ic r pre s :
  Re.search_from ic r s = true -> Re.search_from ic r (pre ++ s) = true.
Proof.
  intros H. induction pre as [|c pre IH]; simpl; [exact H|].
  rewrite IH. apply orb_true_r.
Qed.

Lemma re_any_spec pats url :
  re_any pats url = true <-> exists p, p ∈ pats /\ Re.search true p url = true.
Proof.
  unfold re_any. rewrite existsb_exists. split; intros (p & Hin & Hp); exists p.
  - split; [now apply list_elem_of_In | exact Hp].
  - split; [now apply list_elem_of_In | exact Hp].
Qed.

Lemma search_slash_p pre d post :
  Re.search true "/p/" (pre +:+ "/p/" +:+ String d post) = true.
Proof.
  unfold Re.search.
  replace (Re.compile "/p/") with
    (Some (Re.Cat (Re.Chr "/") (Re.Cat (Re.Chr "p") (Re.Cat (Re.Chr "/") Re.Eps))))
    by (vm_compute; reflexivity).
  rewrite list_ascii_app. apply search_from_suffix.
  simpl. reflexivity.
Qed.

Lemma search_slash_p_digits pre d post :
  Re.is_digit d = true ->
  Re.search true "/p/(\d+)" (pre +:+ "/p/" +:+ String d post) = true.
Proof.
  intros Hd. unfold Re.search.
  match goal with |- context [Re.compile ?p] =>
    let v := eval vm_compute in (Re.compile p) in
    change (Re.compile p) with v end.
  rewrite list_ascii_app. apply search_from_suffix.
  change (String.list_ascii_of_string ("/p/" +:+ String d post))
    with ("/"%char :: "p"%char :: "/"%char :: d :: String.list_ascii_of_string post).
  apply orb_true_intro; left.
  change (Re.cset_match true false [Re.CDigit] d
          && (fix loop (n : nat) (s : list ascii) {struct n} : bool :=
                true || match n with
                        | O => false
                        | S n' => Re.rmatch true (Re.CSet false [Re.CDigit]) s
                                    (fun s' => (length s' <? length s)%nat && loop n' s')
                        end)
               (length (String.list_ascii_of_string post))
               (String.list_ascii_of_string post) = true).
  unfold Re.cset_match. simpl existsb. rewrite Hd. simpl.
  destruct (length (String.list_ascii_of_string post)); reflexivity.
Qed.

Section MatcherCorrect.
Context (ic : bool).

Local Abbreviation accepts := (accepts ic).

Lemma star_loop_sound r1 k
    (IH : forall s k', Re.rmatch ic r1 s k' = true -> accepts r1 s k') :
  forall n s,
    (fix loop (n : nat) (s : list ascii) {struct n} : bool :=
       k s || match n with
              | O => false
              | S n' => Re.rmatch ic r1 s
                          (fun s' => (length s' <? length s)%nat && loop n' s')
              end) n s = true ->
    accepts (Re.Star r1) s k.
Proof.
  induction n as [|n IHn]; intros s H.
  - apply orb_true_iff in H as [H|H]; [|discriminate].
    exists [], s. repeat split; [constructor | exact H].
  - apply orb_true_iff in H as [H|H].
    + exists [], s. repeat split; [constructor | exact H].
    + apply IH in H as (w1 & rest1 & -> & Hm & Hk).
      apply andb_true_iff in Hk as [_ Hk].
      apply IHn in Hk as (w2 & rest & -> & Hm2 & Hk).
      exists (w1 ++ w2), rest. rewrite <- app_assoc.
      repeat split; [|exact Hk]. now apply MStarCons.
Qed.

Lemma star_loop_complete r1 k
    (IH : forall s k', accepts r1 s k' -> Re.rmatch ic r1 s k' = true) :
  forall r w rest, matches ic r w rest -> r = Re.Star r1 -> k rest = true ->
  forall n, (length (w ++ rest) <= n)%nat ->
    (fix loop (n : nat) (s : list ascii) {struct n} : bool :=
       k s || match n with
              | O => false
              | S n' => Re.rmatch ic r1 s
                          (fun s' => (length s' <? length s)%nat && loop n' s')
              end) n (w ++ rest) = true.
Proof.
  induction 1 as [| | | | | | | r rest | r w1 w2 rest Hm1 _ Hm2 IH2 |];
    intros Hr Hk n Hn; try discriminate.
  - destruct n; simpl; rewrite Hk; reflexivity.
  - injection Hr as ->.
    destruct w1 as [|x w1].
    + simpl. apply IH2; auto.
    + destruct n as [|n]; [simpl in Hn; lia|].
      apply orb_true_iff. right.
      apply IH. exists (x :: w1), (w2 ++ rest).
      repeat split; [now rewrite <- app_assoc | exact Hm1 |].
      apply andb_true_iff. split.
      * apply Nat.ltb_lt. simpl. rewrite !length_app. lia.
      * apply IH2; auto. simpl in Hn. rewrite !length_app in *. lia.
Qed.

Lemma rmatch_sound r : forall s k, Re.rmatch ic r s k = true -> accepts r s k.
Proof.
  induction r as [| c | | neg items | r1 IH1 r2 IH2 | r1 IH1 r2 IH2 | r1 IH1 |];
    intros s k H; simpl in H.
  - exists [], s. repeat split; [constructor | exact H].
  - destruct s as [|x s]; [discriminate|].
    apply andb_true_iff in H as [Hc Hk].
    exists [x], s. repeat split; [now constructor | exact Hk].
  - destruct s as [|x s]; [discriminate|].
    apply andb_true_iff in H as [Hc Hk]. apply negb_true_iff in Hc.
    exists [x], s. repeat split; [now constructor | exact Hk].
  - destruct s as [|x s]; [discriminate|].
    apply andb_true_iff in H as [Hc Hk].
    exists [x], s. repeat split; [now constructor | exact Hk].
  - apply IH1 in H as (w1 & rest1 & -> & Hm1 & Hk).
    apply IH2 in Hk as (w2 & rest & -> & Hm2 & Hk).
    exists (w1 ++ w2), rest. rewrite <- app_assoc.
    repeat split; [now apply MCat | exact Hk].
  - apply orb_true_iff in H as [H|H].
    + apply IH1 in H as (w & rest & -> & Hm & Hk).
      exists w, rest. repeat split; [now apply MAltL | exact Hk].
    + apply IH2 in H as (w & rest & -> & Hm & Hk).
      exists w, rest. repeat split; [now apply MAltR | exact Hk].
  - eapply star_loop_sound; eauto.
  - apply andb_true_iff in H as [He Hk].
    exists [], s. repeat split; [now constructor | exact Hk].
Qed.

Lemma rmatch_complete r : forall s k, accepts r s k -> Re.rmatch ic r s k = true.
Proof.
  induction r as [| c | | neg items | r1 IH1 r2 IH2 | r1 IH1 r2 IH2 | r1 IH1 |];
    intros s k (w & rest & -> & Hm & Hk); simpl.
  - inversion Hm; subst. exact Hk.
  - inversion Hm; subst; simpl.
    repeat match goal with H : _ = _ |- _ => rewrite H end. reflexivity.
  - inversion Hm; subst; simpl.
    repeat match goal with H : _ = _ |- _ => rewrite H end. reflexivity.
  - inversion Hm; subst; simpl.
    repeat match goal with H : _ = _ |- _ => rewrite H end. reflexivity.
  - inversion Hm; subst. rewrite <- app_assoc.
    apply IH1. exists w1, (w2 ++ rest). repeat split; [assumption|].
    apply IH2. exists w2, rest. repeat split; assumption.
  - inversion Hm; subst.
    + rewrite IH1; [reflexivity|]. exists w, rest. repeat split; assumption.
    + rewrite (IH2 (w ++ rest) k); [apply orb_true_r|].
      exists w, rest. repeat split; assumption.
  - eapply star_loop_complete; eauto.
  - inversion Hm; subst; simpl.
    repeat match goal with H : _ = _ |- _ => rewrite H end. reflexivity.
Qed.

End MatcherCorrect.

(** The matcher decides the declarative semantics. *)
Theorem rmatch_spec ic r s k :
  Re.rmatch ic r s k = true
  <-> exists w rest, s = w ++ rest /\ matches ic r w rest /\ k rest = true.
Proof. split; [apply rmatch_sound | apply rmatch_complete]. Qed.

Theorem search_from_spec ic r s :
  Re.search_from ic r s = true
  <-> exists pre w rest, s = pre ++ w ++ rest /\ matches ic r w rest.
Proof.
  split.
  - induction s as [|x s IH]; simpl; intros H.
    + apply orb_true_iff in H as [H|H]; [|discriminate].
      apply rmatch_spec in H as (w & rest & Hs & Hm & _).
      exists [], w, rest. split; [exact Hs | exact Hm].
    + apply orb_true_iff in H as [H|H].
      * apply rmatch_spec in H as (w & rest & Hs & Hm & _).
        exists [], w, rest. split; [exact Hs | exact Hm].
      * apply IH in H as (pre & w & rest & -> & Hm).
        exists (x :: pre), w, rest. split; [reflexivity | exact Hm].
  - intros (pre & w & rest & -> & Hm).
    apply search_from_suffix.
    assert (H : Re.rmatch ic r (w ++ rest) (fun _ => true) = true).
    { apply rmatch_spec. exists w, rest. repeat split. exact Hm. }
    destruct (w ++ rest); simpl; rewrite H; reflexivity.
Qed.

Lemma Fetcher_eq (a b : Fetcher) :
  visited_categories a = visited_categories b ->
  product_urls a = product_urls b ->
  visited_urls a = visited_urls b ->
  semaphore a = semaphore b ->
  trace a = trace b ->
  a = b.
Proof. destruct a, b; simpl; intros; subst; reflexivity. Qed.

Ltac fetcher_eq :=
  apply Fetcher_eq; simpl; rewrite <- ?app_assoc; simpl;
  try reflexivity; try lia.

Section FetchUrl.
Context (cfg : CrawlerConfig) (W : World).

Lemma requests_of_app url tr evs :
  requests_of url (tr ++ evs) = (requests_of url tr + requests_of url evs)%nat.
Proof. unfold requests_of. now rewrite List.filter_app, length_app. Qed.

Lemma requests_of_attempt url :
  requests_of url (attempt_events cfg url) = 1%nat.
Proof.
  unfold attempt_events, requests_of.
  destruct (negb _); simpl; rewrite ?String.eqb_refl; reflexivity.
Qed.

Local Abbreviation attempted := (attempted cfg).
Local Abbreviation retried := (retried cfg W).

Ltac fetch_unfold st :=
  destruct st as [vc pu vu sem tr];
  unfold fetch_url_from; fold (fetch_url_from cfg W);
  unfold with_semaphore, retried, attempted, attempt_events;
  cbn [semaphore trace];
  destruct (sem <=? 0) eqn:Hs;
  [ try reflexivity; try discriminate
  | unfold bind, try_except, session_get, log, ret, out_of_fuel,
      set_semaphore, add_events;
    cbn [trace visited_categories product_urls visited_urls semaphore fst snd];
    destruct (negb (Qle_bool (request_delay cfg) 0));
    cbn [trace visited_categories product_urls visited_urls semaphore fst snd app];
    rewrite ?requests_of_app;
    change (requests_of _ [Delay (request_delay cfg)]) with 0%nat;
    rewrite ?Nat.add_0_r;
    match goal with
    | |- context [http_get W ?u ?n] => destruct (http_get W u n) as [status body|]
    end;
    cbn [trace visited_categories product_urls visited_urls semaphore fst snd app];
    repeat match goal with
      | |- context [if ?b then _ else _] =>
          destruct b;
          cbn [andb trace visited_categories product_urls visited_urls
               semaphore fst snd app]
      end;
    rewrite <- ?app_assoc; cbn [app]; rewrite ?Z.sub_add ].

Lemma fetch_url_from_no_raise left :
  forall url retry_count st,
    fst (fetch_url_from cfg W left url retry_count st) <> Raise.
Proof.
  induction left as [|left IH]; intros url retry_count st.
  - fetch_unfold st; cbn; discriminate.
  - fetch_unfold st; try (cbn; discriminate).
    all: destruct (fetch_url_from cfg W left url (retry_count + 1) _)
           as [[v| | |] st'] eqn:E;
         try (cbn; discriminate);
         try (exfalso; eapply IH; rewrite E; reflexivity).
    all: destruct v; cbn; discriminate.
Qed.

Lemma fetch_url_from_eq left url retry_count st :
  fetch_url_from cfg W left url retry_count st =
  if semaphore st <=? 0 then (Blocked, st)
  else
    match http_get W url (requests_of url (trace st)) with
    | Response status body =>
        if status =? 200
        then (Ret (Some body), add_events st (attempt_events cfg url))
        else if (status =? 429) && (retry_count <? max_retries cfg)
        then retried left url retry_count st
        else (Ret None, add_events st (attempt_events cfg url))
    | Failure =>
        if retry_count <? max_retries cfg
        then retried left url retry_count st
        else (Ret None, add_events st (attempt_events cfg url))
    end.
Proof.
  destruct left as [|left]; fetch_unfold st; try reflexivity.
  all: unfold release.
  all: destruct (fetch_url_from cfg W left url (retry_count + 1) _)
         as [[v| | |] st'] eqn:E;
       try reflexivity;
       try (exfalso; eapply fetch_url_from_no_raise; rewrite E; reflexivity).
  all: destruct v; reflexivity.
Qed.

Lemma fetch_url_from_frame left :
  forall url retry_count st,
    let out := fetch_url_from cfg W left url retry_count st in
    visited_categories (snd out) = visited_categories st
    /\ product_urls (snd out) = product_urls st
    /\ visited_urls (snd out) = visited_urls st
    /\ exists evs,
         trace (snd out) = trace st ++ evs
         /\ Forall is_io evs
         /\ (forall v, fst out = Ret v ->
                       semaphore (snd out) = semaphore st /\ Get url ∈ evs).
Proof.
  assert (Hatt : forall url, Forall is_io (attempt_events cfg url)).
  { intros url. unfold attempt_events. destruct (negb _); repeat constructor. }
  assert (Hget : forall url, Get url ∈ attempt_events cfg url).
  { intros url. unfold attempt_events. apply elem_of_app. right. left. }
  induction left as [|left IH]; intros url retry_count st out; subst out;
    rewrite fetch_url_from_eq.
  all: destruct (semaphore st <=? 0);
    [ cbn; repeat split; exists []; rewrite app_nil_r;
      repeat split; try constructor; discriminate |].
  all: assert (Hone : forall v : option string,
         let out := (Ret v, add_events st (attempt_events cfg url)) in
         visited_categories (snd out) = visited_categories st
         /\ product_urls (snd out) = product_urls st
         /\ visited_urls (snd out) = visited_urls st
         /\ exists evs,
              trace (snd out) = trace st ++ evs
              /\ Forall is_io evs
              /\ (forall v', fst out = Ret v' ->
                     semaphore (snd out) = semaphore st /\ Get url ∈ evs))
      by (intros v; cbn; repeat split; exists (attempt_events cfg url);
          repeat split; auto).
  - assert (Hretry : let out := retried O url retry_count st in
         visited_categories (snd out) = visited_categories st
         /\ product_urls (snd out) = product_urls st
         /\ visited_urls (snd out) = visited_urls st
         /\ exists evs,
              trace (snd out) = trace st ++ evs
              /\ Forall is_io evs
              /\ (forall v', fst out = Ret v' ->
                     semaphore (snd out) = semaphore st /\ Get url ∈ evs)).
    { cbn. repeat split.
      exists (attempt_events cfg url ++ [Backoff (backoff_seconds retry_count)]).
      rewrite app_assoc. repeat split; try discriminate.
      apply Forall_app. split; [apply Hatt | repeat constructor]. }
    destruct (http_get W url _) as [status body|];
      repeat match goal with
        | |- context [if ?b then _ else _] => destruct b
        end; auto.
  - assert (Hretry : let out := retried (S left) url retry_count st in
         visited_categories (snd out) = visited_categories st
         /\ product_urls (snd out) = product_urls st
         /\ visited_urls (snd out) = visited_urls st
         /\ exists evs,
              trace (snd out) = trace st ++ evs
              /\ Forall is_io evs
              /\ (forall v', fst out = Ret v' ->
                     semaphore (snd out) = semaphore st /\ Get url ∈ evs)).
    { unfold retried.
      set (st1 := add_events (attempted url st) _).
      specialize (IH url (retry_count + 1) st1).
      destruct (fetch_url_from cfg W left url (retry_count + 1) st1)
        as [r st'].
      cbn in IH. destruct IH as (H1 & H2 & H3 & evs & Ht & Hio & Hret).
      assert (Hevs : trace st' = trace st
                ++ (attempt_events cfg url
                    ++ [Backoff (backoff_seconds retry_count)]) ++ evs).
      { rewrite Ht. subst st1. cbn. now rewrite <- !app_assoc. }
      assert (Hio' : Forall is_io ((attempt_events cfg url
                    ++ [Backoff (backoff_seconds retry_count)]) ++ evs)).
      { apply Forall_app; split;
          [apply Forall_app; split; [apply Hatt | repeat constructor]
          | exact Hio]. }
      destruct r as [v| | |]; cbn; repeat split; auto;
        eexists; (split; [exact Hevs|]); (split; [exact Hio'|]);
        try discriminate.
      intros v' _. destruct (Hret v eq_refl) as [Hs _]. split.
      - rewrite Hs. subst st1. cbn. lia.
      - apply elem_of_app. left. apply elem_of_app. left. apply Hget. }
    destruct (http_get W url _) as [status body|];
      repeat match goal with
        | |- context [if ?b then _ else _] => destruct b
        end; auto.
Qed.

Lemma fetch_url_from_returns left :
  forall url retry_count st,
    (Z.to_nat (max_retries cfg - retry_count) <= left)%nat ->
    Z.max 0 (max_retries cfg - retry_count) < semaphore st ->
    exists v st', fetch_url_from cfg W left url retry_count st = (Ret v, st').
Proof.
  induction left as [|left IH]; intros url retry_count st Hleft Hsem;
    rewrite fetch_url_from_eq.
  all: destruct (Z.leb_spec (semaphore st) 0); [lia|].
  all: destruct (Z.ltb_spec retry_count (max_retries cfg)); [|
    destruct (http_get W url _) as [status body|]; [destruct (status =? 200)|];
    rewrite ?andb_false_r; cbn; eauto ].
  - lia.
  - assert (Hretry : exists v st', retried (S left) url retry_count st = (Ret v, st')).
    { unfold retried.
      edestruct (IH url (retry_count + 1)) as (v & st' & E); [lia| |rewrite E].
      - cbn. lia.
      - cbn. eauto. }
    destruct (http_get W url _) as [status body|];
      [destruct (status =? 200); [eauto|]; destruct (status =? 429)|];
      cbn; eauto.
Qed.

Lemma fetch_url_from_status left url retry_count st status body :
  0 < semaphore st ->
  http_get W url (requests_of url (trace st)) = Response status body ->
  status <> 429 ->
  fetch_url_from cfg W left url retry_count st =
  (Ret (if status =? 200 then Some body else None),
   add_events st (attempt_events cfg url)).
Proof.
  intros Hsem Hget H429. rewrite fetch_url_from_eq, Hget.
  destruct (Z.leb_spec (semaphore st) 0); [lia|].
  destruct (status =? 200); [reflexivity|].
  destruct (Z.eqb_spec status 429); [contradiction|]. reflexivity.
Qed.

Lemma fetch_url_from_exhausts left :
  forall url retry_count st,
    left = Z.to_nat (max_retries cfg - retry_count) ->
    Z.of_nat left < semaphore st ->
    (forall i, (i <= left)%nat ->
               retryable (http_get W url (requests_of url (trace st) + i))) ->
    fetch_url_from cfg W left url retry_count st =
    (Ret None, add_events st (retry_events cfg url retry_count left)).
Proof.
  induction left as [|left IH]; intros url retry_count st Hleft Hsem Hout;
    rewrite fetch_url_from_eq.
  all: destruct (Z.leb_spec (semaphore st) 0); [lia|].
  all: pose proof (Hout O ltac:(lia)) as H0; rewrite Nat.add_0_r in H0.
  - destruct (Z.ltb_spec retry_count (max_retries cfg)); [lia|].
    cbn [retry_events]. rewrite app_nil_r.
    destruct (http_get W url _) as [status body|]; [|reflexivity].
    cbn in H0. subst status. reflexivity.
  - destruct (Z.ltb_spec retry_count (max_retries cfg)); [|lia].
    assert (Hretry : retried (S left) url retry_count st =
              (Ret None,
               add_events st (retry_events cfg url retry_count (S left)))).
    { unfold retried.
      rewrite IH.
      - cbn. f_equal. fetcher_eq.
      - lia.
      - cbn. lia.
      - intros i Hi. cbn [trace add_events attempted set_semaphore].
        rewrite !requests_of_app, requests_of_attempt.
        change (requests_of url [Backoff _]) with 0%nat.
        replace (requests_of url (trace st) + 1 + 0 + i)%nat
          with (requests_of url (trace st) + S i)%nat by lia.
        apply Hout. lia. }
    destruct (http_get W url _) as [status body|]; [|exact Hretry].
    cbn in H0. subst status. exact Hretry.
Qed.

End FetchUrl.

Section Traversal.
Context (cfg : CrawlerConfig) (W : World).

Local Abbreviation page_link := (page_link W).
Local Abbreviation is_product_url := (is_product_url cfg).
Local Abbreviation is_category_url := (is_category_url cfg).
Local Abbreviation is_pagination_url := (is_pagination_url cfg).

(** ** The loop over the links of a page *)

Lemma classify_fold visited urls :
  forall acc u,
    let out := foldl (classify_link cfg visited) acc urls in
    (u ∈ out.1.1 <->
       u ∈ acc.1.1 \/ (u ∈ urls /\ is_product_url u = true))
    /\ (u ∈ out.1.2 <->
          u ∈ acc.1.2
          \/ (u ∈ urls /\ is_product_url u = false
              /\ is_category_url u = true /\ u ∉ visited))
    /\ (u ∈ out.2 <->
          u ∈ acc.2 \/ (u ∈ urls /\ is_pagination_url u = true)).
Proof.
  induction urls as [|full urls IH]; intros [[p s] g] u; cbn [foldl].
  - cbn. repeat split; intros; try tauto.
    all: destruct H as [H|[Hh _]]; [exact H | inversion Hh].
  - specialize (IH (classify_link cfg visited (p, s, g) full) u).
    cbn zeta in IH. destruct IH as (IHp & IHs & IHg).
    rewrite IHp, IHs, IHg. clear IHp IHs IHg.
    unfold classify_link.
    destruct (is_product_url full) eqn:Hp;
      destruct (is_category_url full) eqn:Hc;
      destruct (bool_decide (full ∈ visited)) eqn:Hv;
      destruct (is_pagination_url full) eqn:Hg; cbn.
    all: try apply bool_decide_eq_true in Hv.
    all: try apply bool_decide_eq_false in Hv.
    all: repeat split; rewrite ?elem_of_union, ?elem_of_singleton;
      rewrite ?elem_of_cons.
    all: try (naive_solver congruence).
Qed.

Lemma scan_link_none domain visited hrefs :
  foldl (scan_link cfg W domain visited) None hrefs = None.
Proof. induction hrefs as [|h hrefs IH]; [reflexivity | exact IH]. Qed.

(** The loop joins every link and classifies the joined URLs; it is cut
    short by the first link that cannot be joined. *)
Lemma scan_links_join domain visited hrefs :
  forall acc,
    foldl (scan_link cfg W domain visited) (Some acc) hrefs
    = foldl (classify_link cfg visited) acc <$> mapM (page_link domain) hrefs.
Proof.
  induction hrefs as [|h hrefs IH]; intros acc; [reflexivity|].
  cbn [foldl mapM]. unfold scan_link at 2. fold (page_link domain h).
  destruct (page_link domain h) as [full|]; cbn.
  - rewrite IH. destruct (mapM (page_link domain) hrefs); reflexivity.
  - apply scan_link_none.
Qed.

Lemma mapM_elem domain hrefs urls u :
  mapM (page_link domain) hrefs = Some urls ->
  u ∈ urls <-> exists h, h ∈ hrefs /\ page_link domain h = Some u.
Proof.
  intros H. apply mapM_Some in H. induction H as [|h full hrefs urls Hh _ IH].
  - split; [intros Hu; inversion Hu | intros (h & Hh & _); inversion Hh].
  - rewrite elem_of_cons, IH. split.
    + intros [->|(h' & Hin & Hj)]; [exists h | exists h'];
        rewrite elem_of_cons; auto.
    + intros (h' & Hin & Hj). apply elem_of_cons in Hin as [->|Hin].
      * left. congruence.
      * right. eauto.
Qed.

Lemma scan_links_spec domain visited hrefs out u :
  scan_links cfg W domain visited hrefs = Some out ->
  (u ∈ out.1.1 <->
     exists h, h ∈ hrefs /\ page_link domain h = Some u
               /\ is_product_url u = true)
  /\ (u ∈ out.1.2 <->
        exists h, h ∈ hrefs /\ page_link domain h = Some u
                  /\ is_product_url u = false
                  /\ is_category_url u = true /\ u ∉ visited)
  /\ (u ∈ out.2 <->
        exists h, h ∈ hrefs /\ page_link domain h = Some u
                  /\ is_pagination_url u = true).
Proof.
  unfold scan_links. rewrite scan_links_join.
  destruct (mapM (page_link domain) hrefs) as [urls|] eqn:Hj; [|discriminate].
  cbn. intros [= <-].
  pose proof (classify_fold visited urls (∅, ∅, ∅) u) as H.
  cbn zeta in H. destruct H as (Hp & Hs & Hg).
  pose proof (mapM_elem domain hrefs urls u Hj) as Hin.
  rewrite Hp, Hs, Hg, Hin. cbn.
  repeat split.
  all: try (intros [H|[(h & Hh & Hu) H]]; [set_solver | eauto 10]).
  all: intros (h & Hh & Hu & H); right; eauto 10.
Qed.

Lemma mapM_none domain hrefs :
  mapM (page_link domain) hrefs = None
  <-> exists h, h ∈ hrefs /\ page_link domain h = None.
Proof.
  induction hrefs as [|h hrefs IH].
  - split; [discriminate | intros (h & Hh & _); inversion Hh].
  - cbn [mapM]. destruct (page_link domain h) as [full|] eqn:Hj; cbn.
    + destruct (mapM (page_link domain) hrefs) as [urls|]; cbn; split.
      * discriminate.
      * intros (h' & Hin & Hn). apply elem_of_cons in Hin as [->|Hin];
          [congruence|].
        assert (Hex : exists h0, h0 ∈ hrefs /\ page_link domain h0 = None)
          by eauto.
        apply IH in Hex. discriminate.
      * intros _. destruct IH as [IH _].
        destruct (IH eq_refl) as (h' & Hin & Hn).
        exists h'. rewrite elem_of_cons. auto.
      * reflexivity.
    + split; [|reflexivity]. intros _. exists h. split; [left | exact Hj].
Qed.

(** The loop raises exactly when some link cannot be joined. *)
Lemma scan_links_raises domain visited hrefs :
  scan_links cfg W domain visited hrefs = None
  <-> exists h, h ∈ hrefs /\ page_link domain h = None.
Proof.
  unfold scan_links. rewrite scan_links_join, fmap_None. apply mapM_none.
Qed.

(** ** [process_page] in terms of the fetch *)

Local Abbreviation page_result := (page_result cfg W).

Lemma process_page_eq domain page_url st :
  process_page cfg W domain page_url st =
  match fetch_url cfg W page_url 0 st with
  | (Ret (Some body), st') =>
      if String.eqb body "" then (Ret (∅, [], []), st')
      else match page_result domain st' body with
           | Some found => (Ret found, st')
           | None => (Raise, st')
           end
  | (Ret None, st') => (Ret (∅, [], []), st')
  | (Raise, st') => (Raise, st')
  | (Blocked, st') => (Blocked, st')
  | (OutOfFuel, st') => (OutOfFuel, st')
  end.
Proof.
  unfold process_page, bind.
  destruct (fetch_url cfg W page_url 0 st) as [[[body|]| | |] st'];
    try reflexivity.
  destruct (String.eqb body ""); [reflexivity|].
  unfold get_state, page_result, ret, raise.
  destruct (scan_links _ _ _ _ _) as [[[p s] g]|]; reflexivity.
Qed.

Lemma page_result_spec domain st body found :
  page_result domain st body = Some found ->
  exists out,
    scan_links cfg W domain (visited_categories st !!! domain)
      (find_hrefs W body) = Some out
    /\ found = (out.1.1, list_of_set W out.1.2, list_of_set W out.2).
Proof.
  unfold page_result.
  destruct (scan_links _ _ _ _ _) as [out|]; [|discriminate].
  cbn. intros [= <-]. eauto.
Qed.

End Traversal.

Lemma visited_after_add domain url st d u :
  u ∈ visited_categories (add_visited domain url st).2 !!! d
  <-> u ∈ visited_categories st !!! d \/ (d = domain /\ u = url).
Proof.
  cbn. rewrite lookup_total_insert. case_decide; subst; set_solver.
Qed.

Lemma products_after_update domain products st d u :
  u ∈ product_urls (update_products domain products st).2 !!! d
  <-> u ∈ product_urls st !!! d \/ (d = domain /\ u ∈ products).
Proof.
  cbn. rewrite lookup_total_insert. case_decide; subst; set_solver.
Qed.

Lemma is_io_ok cfg evs : Forall is_io evs -> Forall (ok_event cfg) evs.
Proof.
  intros H. eapply Forall_impl; [exact H|].
  intros [| | |k p u d]; cbn; tauto.
Qed.

Section Invariants.
Context (cfg : CrawlerConfig) (W : World) (Pv : string -> Prop).

Local Abbreviation ok := (step_ok cfg Pv).

Lemma ok_refl st : ok st st.
Proof.
  split; auto. exists []. rewrite app_nil_r. split; [reflexivity | constructor].
Qed.

Lemma ok_trans st1 st2 st3 : ok st1 st2 -> ok st2 st3 -> ok st1 st3.
Proof.
  intros [A1 B1 C1 D1 (e1 & E1 & F1)] [A2 B2 C2 D2 (e2 & E2 & F2)]. split.
  - congruence.
  - intros d. etransitivity; eauto.
  - intros d. etransitivity; eauto.
  - intros d u Hu. destruct (D2 d u Hu) as [H|H]; auto.
  - exists (e1 ++ e2). rewrite E2, E1, app_assoc. split; [reflexivity|].
    apply Forall_app. auto.
Qed.

Lemma ok_log e st : ok_event cfg e -> ok st (log e st).2.
Proof.
  intros He. split; cbn; auto. exists [e]. split; [reflexivity|].
  constructor; [exact He | constructor].
Qed.

Lemma ok_add_visited domain url st : Pv url -> ok st (add_visited domain url st).2.
Proof.
  intros HP. split; try (cbn; auto; fail).
  - intros d u Hu. apply visited_after_add. auto.
  - intros d u Hu. apply visited_after_add in Hu as [Hu|[_ ->]]; auto.
  - exists []. cbn. rewrite app_nil_r. split; [reflexivity | constructor].
Qed.

Lemma ok_update_products domain products st :
  ok st (update_products domain products st).2.
Proof.
  split; try (cbn; auto; fail).
  - intros d u Hu. apply products_after_update. auto.
  - exists []. cbn. rewrite app_nil_r. split; [reflexivity | constructor].
Qed.

Lemma ok_fetch_url url retry_count st :
  ok st (fetch_url cfg W url retry_count st).2.
Proof.
  unfold fetch_url.
  destruct (fetch_url_from_frame cfg W
              (Z.to_nat (max_retries cfg - retry_count)) url retry_count st)
    as (H1 & H2 & H3 & evs & Ht & Hio & _).
  split; auto.
  - intros d. now rewrite H2.
  - intros d. now rewrite H1.
  - intros d u. rewrite H1. auto.
  - exists evs. split; [exact Ht | now apply is_io_ok].
Qed.

Lemma ok_bind {A B : Type} (c : M A) (k : A -> M B) (Q : A -> Prop) st :
  ok st (c st).2 ->
  (forall a, (c st).1 = Ret a -> Q a) ->
  (forall a st1, Q a -> ok st1 (k a st1).2) ->
  ok st (bind c k st).2.
Proof.
  intros Hc HQ Hk. unfold bind.
  destruct (c st) as [[a| | |] st1]; cbn in *; auto.
  eapply ok_trans; [exact Hc|]. apply Hk. now apply HQ.
Qed.

Lemma ok_seq {A B : Type} (c : M A) (k : M B) st :
  ok st (c st).2 ->
  (forall st1, ok st1 (k st1).2) ->
  ok st (bind c (fun _ => k) st).2.
Proof.
  intros Hc Hk. apply (ok_bind c (fun _ => k) (fun _ => True)); auto.
Qed.

Lemma ok_gather tasks :
  (forall t, t ∈ tasks -> forall st, ok st (t st).2) ->
  forall st, ok st (gather tasks st).2.
Proof.
  induction tasks as [|t ts IH]; intros H st; cbn [gather].
  - apply ok_refl.
  - apply ok_seq.
    + apply H. left.
    + apply IH. intros t' Ht'. apply H. now right.
Qed.

Lemma ok_spawn_all kind parent depth urls :
  (forall u, ok_event cfg (Spawn kind parent u depth)) ->
  forall st, ok st (spawn_all kind parent depth urls st).2.
Proof.
  intros H. unfold spawn_all. apply ok_gather.
  intros t Ht. apply list_elem_of_fmap in Ht as (u & -> & _).
  intros st. now apply ok_log.
Qed.

Lemma ok_process_page domain page_url st :
  ok st (process_page cfg W domain page_url st).2.
Proof.
  rewrite process_page_eq.
  pose proof (ok_fetch_url page_url 0 st) as H.
  destruct (fetch_url cfg W page_url 0 st) as [[[body|]| | |] st']; auto.
  destruct (String.eqb body ""); auto.
  destruct (page_result cfg W domain st' body); auto.
Qed.

(** The links that [process_page] hands to the traversal are classified. *)
Lemma process_page_targets domain page_url st products subcategories
    pagination_links :
  (process_page cfg W domain page_url st).1
  = Ret (products, subcategories, pagination_links) ->
  exists S G : gset string,
    (subcategories = [] \/ subcategories = list_of_set W S)
    /\ (pagination_links = [] \/ pagination_links = list_of_set W G)
    /\ (forall u, u ∈ S -> is_category_url cfg u = true)
    /\ (forall u, u ∈ G -> is_pagination_url cfg u = true).
Proof.
  rewrite process_page_eq.
  destruct (fetch_url cfg W page_url 0 st) as [[[body|]| | |] st'];
    cbn; try discriminate.
  - destruct (String.eqb body ""); cbn.
    + intros [= <- <- <-]. exists ∅, ∅. repeat split; auto; set_solver.
    + destruct (page_result cfg W domain st' body) as [found|] eqn:Hres;
        cbn; [|discriminate].
      apply page_result_spec in Hres as (out & Hscan & ->).
      intros [= <- <- <-].
      eexists _, _. split; [right; reflexivity|]. split; [right; reflexivity|].
      split; intros u Hu;
        apply (scan_links_spec cfg W domain _ (find_hrefs W body) out u Hscan)
          in Hu;
        destruct Hu as (h & _ & _ & Hu); tauto.
  - intros [= <- <- <-]. exists ∅, ∅. repeat split; auto; set_solver.
Qed.

Context
  (Hlist : forall (X : gset string) u,
      u ∈ list_of_set W X -> (forall v, v ∈ X -> Pv v) -> Pv u)
  (Hclass : forall u,
      is_category_url cfg u = true \/ is_pagination_url cfg u = true -> Pv u).

Lemma slice_to_subset {A : Type} (l : list A) n x : x ∈ slice_to l n -> x ∈ l.
Proof.
  unfold slice_to. destruct (n <? 0); intros H;
    apply list_elem_of_lookup in H as [i H];
    apply lookup_take_Some in H as [H _];
    apply list_elem_of_lookup; eauto.
Qed.

Lemma unvisited_subset domain st l x : x ∈ unvisited domain st l -> x ∈ l.
Proof. unfold unvisited. intros H. apply list_elem_of_filter in H. tauto. Qed.

Lemma ok_crawl_category_pages fuel :
  forall domain start_url depth st,
    Pv start_url ->
    ok st (crawl_category_pages cfg W fuel domain start_url depth st).2.
Proof.
  induction fuel as [|fuel IH]; intros domain start_url depth st HPv.
  - apply ok_refl.
  - cbn [crawl_category_pages].
    unfold bind at 1. cbn [get_state fst snd].
    destruct (bool_decide _ || _); [apply ok_refl|].
    apply ok_seq; [now apply ok_add_visited|]. intros st1.
    apply (ok_bind _ _ (fun found =>
             (forall u, u ∈ found.1.2 -> Pv u)
             /\ (forall u, u ∈ found.2 -> Pv u))).
    { apply ok_process_page. }
    { intros [[p s] g] Hret.
      apply process_page_targets in Hret
        as (S & G & [->| ->] & [->| ->] & HS & HG); cbn; split; intros u Hu;
        try (now inversion Hu).
      all: try (eapply Hlist; [exact Hu|]; intros v Hv; apply Hclass; auto). }
    intros [[p s] g] st2 [Hs Hg]. cbn in Hs, Hg.
    apply ok_seq; [apply ok_update_products|]. intros st3.
    apply ok_seq.
    + destruct (Z.ltb_spec depth (max_depth cfg)); cbn [andb];
        [|apply ok_refl].
      destruct (negb _); [|apply ok_refl].
      unfold bind at 1. cbn [get_state fst snd].
      apply ok_seq.
      * apply ok_spawn_all. intros u. cbn. lia.
      * apply ok_gather. intros t Ht.
        apply list_elem_of_fmap in Ht as (u & -> & Hu).
        intros st4. apply IH. apply Hs.
        eapply slice_to_subset, unvisited_subset, Hu.
    + intros st4. destruct (negb _); [|apply ok_refl].
      unfold bind at 1. cbn [get_state fst snd].
      apply ok_seq.
      * apply ok_spawn_all. intros u. cbn. lia.
      * apply ok_gather. intros t Ht.
        apply list_elem_of_fmap in Ht as (u & -> & Hu).
        intros st5. apply IH. apply Hg.
        eapply unvisited_subset, Hu.
Qed.

Lemma ok_process_batch fuel domain urls st :
  (forall u, u ∈ urls -> Pv u) ->
  ok st (process_batch cfg W fuel domain urls st).2.
Proof.
  intros Hu. unfold process_batch.
  unfold bind at 1. cbn [get_state fst snd].
  apply ok_seq.
  - apply ok_spawn_all. intros u. cbn. lia.
  - apply ok_gather. intros t Ht.
    apply list_elem_of_fmap in Ht as (u & -> & Hin).
    intros st1. apply ok_crawl_category_pages. apply Hu.
    eapply unvisited_subset, Hin.
Qed.

Lemma root_link_none base_url hrefs :
  foldl (root_link cfg W base_url) None hrefs = None.
Proof. induction hrefs as [|h hrefs IH]; [reflexivity | exact IH]. Qed.

Lemma root_categories_spec base_url hrefs category_urls u :
  root_categories cfg W base_url hrefs = Some category_urls ->
  u ∈ category_urls ->
  is_category_url cfg u = true.
Proof.
  unfold root_categories.
  assert (H : forall acc : gset string,
             (forall v, v ∈ acc -> is_category_url cfg v = true) ->
             forall out,
               foldl (root_link cfg W base_url) (Some acc) hrefs = Some out ->
               forall v, v ∈ out -> is_category_url cfg v = true).
  { induction hrefs as [|h hrefs IH]; intros acc Hacc out; cbn [foldl].
    - now intros [= <-].
    - unfold root_link at 2.
      destruct (urljoin W base_url h) as [full|];
        [|rewrite root_link_none; discriminate].
      apply IH. intros w.
      destruct (is_category_url cfg full) eqn:E; auto.
      rewrite elem_of_union, elem_of_singleton. intros [->|Hw]; auto. }
  intros Hr. eapply H; [|exact Hr]. set_solver.
Qed.

Lemma chunks_subset {A : Type} fuel n (l : list A) b x :
  b ∈ chunks fuel n l -> x ∈ b -> x ∈ l.
Proof.
  revert l. induction fuel as [|fuel IH]; intros l Hb Hx.
  - destruct l; inversion Hb.
  - destruct l as [|a l]; [inversion Hb|].
    cbn [chunks] in Hb. apply elem_of_cons in Hb as [->|Hb].
    + apply list_elem_of_lookup in Hx as [i Hx].
      apply lookup_take_Some in Hx as [Hx _].
      apply list_elem_of_lookup; eauto.
    + apply IH in Hb; auto.
      apply list_elem_of_lookup in Hb as [i Hb].
      rewrite lookup_drop in Hb. apply list_elem_of_lookup; eauto.
Qed.

Lemma ok_crawl_domain fuel domain st :
  ok st (crawl_domain cfg W fuel domain st).2.
Proof.
  unfold crawl_domain.
  unfold bind at 1. cbn [get_state fst snd].
  destruct (bool_decide _); [apply ok_refl|].
  apply (ok_bind _ _ (fun _ => True)); auto.
  { apply ok_fetch_url. }
  intros [body|] st1 _; [|apply ok_refl].
  destruct (String.eqb body ""); [apply ok_refl|].
  destruct (root_categories _ _ _ _) as [category_urls|] eqn:Hroot;
    [|apply ok_refl].
  destruct (batches _ _) as [bs|] eqn:Hb; [|apply ok_refl].
  apply ok_gather. intros t Ht.
  apply list_elem_of_fmap in Ht as (b & -> & Hin).
  intros st2. apply ok_process_batch. intros u Hu.
  unfold batches in Hb.
  destruct (batch_size cfg =? 0); [discriminate|].
  destruct (batch_size cfg <? 0); injection Hb as <-; [inversion Hin|].
  eapply chunks_subset in Hu; [|exact Hin].
  eapply Hlist; [exact Hu|].
  intros v Hv. apply Hclass. left. eapply root_categories_spec; eauto.
Qed.

Lemma ok_crawl_domains fuel domains st :
  ok st (crawl_domains cfg W fuel domains st).2.
Proof.
  unfold crawl_domains. apply ok_gather. intros t Ht.
  apply list_elem_of_fmap in Ht as (d & -> & _).
  intros st1. apply ok_crawl_domain.
Qed.

End Invariants.

(** * The classifier *)

Lemma search_found_in ic pattern url :
  Re.search ic pattern url = true <-> found_in ic pattern url.
Proof.
  unfold Re.search, found_in. split.
  - destruct (Re.compile pattern) as [r|]; [|discriminate].
    intros H. apply search_from_spec in H as (pre & w & rest & Hs & Hm).
    exists r, pre, w, rest. auto.
  - intros (r & pre & w & rest & -> & Hs & Hm).
    apply search_from_spec. eauto.
Qed.

Lemma re_any_found pats url :
  re_any pats url = true
  <-> exists pattern, pattern ∈ pats /\ found_in true pattern url.
Proof.
  rewrite re_any_spec. split; intros (p & Hin & Hp); exists p; split; auto;
    now apply search_found_in.
Qed.

(** * The matcher against the meaning of patterns *)

Lemma code_inj a b : nat_of_ascii a = nat_of_ascii b -> a = b.
Proof.
  intros H. rewrite <- (ascii_nat_embedding a), <- (ascii_nat_embedding b).
  now rewrite H.
Qed.

Lemma code_lower c :
  nat_of_ascii (Re.lower c)
  = if (65 <=? nat_of_ascii c)%nat && (nat_of_ascii c <=? 90)%nat
    then (nat_of_ascii c + 32)%nat else nat_of_ascii c.
Proof.
  unfold Re.lower, Re.code.
  destruct ((65 <=? nat_of_ascii c)%nat && (nat_of_ascii c <=? 90)%nat) eqn:E;
    [|reflexivity].
  apply andb_true_iff in E as [_ E]. apply Nat.leb_le in E.
  apply nat_ascii_embedding. lia.
Qed.

Lemma code_upper c :
  nat_of_ascii (Re.upper c)
  = if (97 <=? nat_of_ascii c)%nat && (nat_of_ascii c <=? 122)%nat
    then (nat_of_ascii c - 32)%nat else nat_of_ascii c.
Proof.
  unfold Re.upper, Re.code.
  destruct ((97 <=? nat_of_ascii c)%nat && (nat_of_ascii c <=? 122)%nat) eqn:E;
    [|reflexivity].
  apply andb_true_iff in E as [_ E]. apply Nat.leb_le in E.
  apply nat_ascii_embedding. lia.
Qed.

Ltac by_codes :=
  repeat match goal with
    | |- context [(?a <=? ?b)%nat] => destruct (Nat.leb_spec a b)
    | H : context [(?a <=? ?b)%nat] |- _ => destruct (Nat.leb_spec a b)
    end;
  cbn [andb orb negb] in *; try lia; try discriminate; try tauto.

Lemma chr_eq_same_letter c x :
  Re.chr_eq true c x = true <-> same_letter c x.
Proof.
  unfold Re.chr_eq, same_letter. cbn zeta. rewrite Ascii.eqb_eq.
  split.
  - intros H. apply (f_equal nat_of_ascii) in H.
    rewrite !code_lower in H. by_codes.
  - intros H. apply code_inj. rewrite !code_lower. by_codes.
Qed.

Lemma is_digit_char x : Re.is_digit x = true <-> digit_char x.
Proof.
  unfold Re.is_digit, Re.code, digit_char.
  rewrite andb_true_iff, !Nat.leb_le. lia.
Qed.

Lemma in_range_codes lo hi x :
  Re.in_range lo hi x = true
  <-> (nat_of_ascii lo <= nat_of_ascii x <= nat_of_ascii hi)%nat.
Proof.
  unfold Re.in_range, Re.code. rewrite andb_true_iff, !Nat.leb_le. lia.
Qed.

Lemma same_letter_lower x : same_letter (Re.lower x) x.
Proof. unfold same_letter. cbn zeta. rewrite code_lower. by_codes. Qed.

Lemma same_letter_upper x : same_letter (Re.upper x) x.
Proof. unfold same_letter. cbn zeta. rewrite code_upper. by_codes. Qed.

Lemma citem_match_has it x :
  Re.citem_match true it x = true <-> item_has it x.
Proof.
  destruct it as [c|lo hi| |]; cbn [Re.citem_match item_has].
  - apply chr_eq_same_letter.
  - cbn [andb]. rewrite !orb_true_iff, !in_range_codes. split.
    + intros [H|[H|H]].
      * exists x. split; [left; reflexivity | exact H].
      * exists (Re.lower x). split; [apply same_letter_lower | exact H].
      * exists (Re.upper x). split; [apply same_letter_upper | exact H].
    + intros (y & Hy & Hr). unfold same_letter in Hy. cbn zeta in Hy.
      rewrite code_lower, code_upper. by_codes.
  - apply is_digit_char.
  - pose proof (is_digit_char x) as H.
    change (negb (Re.is_digit x) = true <-> ~ digit_char x).
    destruct (Re.is_digit x); cbn [negb]; split; intros H1;
      try discriminate; try reflexivity.
    + exfalso. apply H1, H. reflexivity.
    + intros Hd. apply H in Hd. discriminate.
Qed.

Lemma cset_match_has negated items x :
  Re.cset_match true negated items x = true <-> set_has negated items x.
Proof.
  unfold Re.cset_match, set_has.
  assert (H : existsb (fun it => Re.citem_match true it x) items = true
              <-> Exists (fun it => item_has it x) items).
  { rewrite existsb_exists, Exists_exists. split;
      intros (it & Hin & Hit); exists it; (split; [|now apply citem_match_has]).
    - now apply list_elem_of_In.
    - now apply list_elem_of_In. }
  destruct negated; destruct (existsb _ items); cbn [xorb]; try exact H.
  - split; [discriminate|]. intros H1. exfalso. apply H1, H. reflexivity.
  - split; [|reflexivity]. intros _ He. apply H in He. discriminate.
Qed.

Lemma newline_code x : Ascii.eqb x Re.newline = true <-> nat_of_ascii x = 10%nat.
Proof.
  rewrite Ascii.eqb_eq. split; [now intros -> | intros H].
  now apply code_inj.
Qed.

Lemma at_end_spec rest :
  Re.at_end rest = true
  <-> rest = [] \/ exists c, rest = [c] /\ nat_of_ascii c = 10%nat.
Proof.
  destruct rest as [|c [|d rest]]; cbn [Re.at_end].
  - split; auto.
  - rewrite newline_code. split.
    + intros H. right. eauto.
    + intros [H|(c' & [= <-] & H)]; [discriminate | exact H].
  - split; [discriminate|]. intros [H|(c' & H & _)]; discriminate.
Qed.

(** The declarative reading used by the matcher's correctness proof and the
    meaning stated on character codes are the same relation. *)
Lemma matches_denotes r w rest : matches true r w rest <-> denotes r w rest.
Proof.
  split.
  - induction 1.
    + constructor.
    + constructor. now apply chr_eq_same_letter.
    + constructor. intros Hn. apply newline_code in Hn. congruence.
    + constructor. now apply cset_match_has.
    + now constructor.
    + now apply DAltL.
    + now apply DAltR.
    + constructor.
    + now apply DStarCons.
    + constructor. now apply at_end_spec.
  - induction 1.
    + constructor.
    + constructor. now apply chr_eq_same_letter.
    + constructor. destruct (Ascii.eqb x Re.newline) eqn:E; [|reflexivity].
      apply newline_code in E. contradiction.
    + constructor. now apply cset_match_has.
    + now constructor.
    + now apply MAltL.
    + now apply MAltR.
    + constructor.
    + now apply MStarCons.
    + constructor. now apply at_end_spec.
Qed.

Lemma found_in_occurs pattern r url :
  Re.compile pattern = Some r ->
  found_in true pattern url <-> occurs r url.
Proof.
  intros Hc. unfold found_in, occurs. split.
  - intros (r' & pre & w & rest & Hr & Hs & Hm).
    assert (r' = r) as -> by congruence.
    exists pre, w, rest. split; [exact Hs | now apply matches_denotes].
  - intros (pre & w & rest & Hs & Hm).
    exists r, pre, w, rest. split; [exact Hc|].
    split; [exact Hs | now apply matches_denotes].
Qed.

(** A classifier whose patterns are the written forms of [rs] is true
    exactly when one of [rs] occurs in the URL. *)
Lemma re_any_occurs pats rs url :
  map Re.compile pats = map Some rs ->
  re_any pats url = true <-> exists r, r ∈ rs /\ occurs r url.
Proof.
  rewrite re_any_found. revert rs.
  induction pats as [|p pats IH]; intros [|r rs] Hmap; try discriminate.
  - split; intros (x & Hin & _); inversion Hin.
  - cbn [map] in Hmap. injection Hmap as Hp Hrest.
    specialize (IH rs Hrest). split.
    + intros (q & Hin & Hq). apply elem_of_cons in Hin as [->|Hin].
      * exists r. split; [left | now apply (found_in_occurs _ _ _ Hp)].
      * destruct IH as [IH _]. destruct IH as (r' & Hr' & Ho); [eauto|].
        exists r'. split; [now right | exact Ho].
    + intros (r' & Hin & Ho). apply elem_of_cons in Hin as [->|Hin].
      * exists p. split; [left | now apply (found_in_occurs _ _ _ Hp)].
      * destruct IH as [_ IH]. destruct IH as (q & Hq & Hf); [eauto|].
        exists q. split; [now right | exact Hf].
Qed.

Lemma default_patterns_compiled :
  map Re.compile default_product_patterns = map Some product_regexes
  /\ map Re.compile default_category_patterns = map Some category_regexes
  /\ map Re.compile default_pagination_patterns = map Some pagination_regexes.
Proof. repeat split; vm_compute; reflexivity. Qed.

(** A classifier whose patterns are all in the fragment is true exactly when
    the expression of one of its patterns occurs in the URL. *)
Lemma re_any_fragment pats url :
  re_any pats url = true
  <-> exists pattern r,
        pattern ∈ pats /\ Re.compile pattern = Some r /\ occurs r url.
Proof.
  rewrite re_any_found. split.
  - intros (p & Hin & Hf).
    destruct Hf as (r & pre & w & rest & Hr & Hs & Hm).
    exists p, r. split; [exact Hin|]. split; [exact Hr|].
    exists pre, w, rest. split; [exact Hs | now apply matches_denotes].
  - intros (p & r & Hin & Hr & Ho). exists p. split; [exact Hin|].
    now apply (found_in_occurs p r).
Qed.



Lemma p_digit_is_product cfg url :
  product_patterns cfg = Some default_product_patterns ->
  has_p_digit url -> is_product_url cfg url = true.
Proof.
  intros Hp (pre & d & post & -> & Hd).
  unfold is_product_url. rewrite Hp. apply re_any_spec.
  exists "/p/"%string. split; [|apply search_slash_p].
  unfold patterns, default_product_patterns. set_solver.
Qed.

Lemma p_digit_is_pagination cfg url :
  pagination_patterns cfg = Some default_pagination_patterns ->
  has_p_digit url -> is_pagination_url cfg url = true.
Proof.
  intros Hp (pre & d & post & -> & Hd).
  unfold is_pagination_url. rewrite Hp. apply re_any_spec.
  exists "/p/(\d+)"%string. split; [|now apply search_slash_p_digits].
  unfold patterns, default_pagination_patterns. set_solver.
Qed.

(** * [fetch_url] *)

Lemma fresh_semaphore cfg : semaphore (fresh cfg) = max_concurrent_requests cfg.
Proof. reflexivity. Qed.







(** * One node of the traversal *)

Lemma enumerates_elem W X u :
  enumerates W -> u ∈ list_of_set W X <-> u ∈ X.
Proof. intros HW. rewrite (HW X). apply elem_of_elements. Qed.

Lemma crawl_category_pages_unfold cfg W fuel domain start_url depth st :
  crawl_category_pages cfg W (S fuel) domain start_url depth st =
  if bool_decide (start_url ∈ visited_categories st !!! domain)
     || (max_depth cfg <? depth)
  then (Ret tt, st)
  else bind (process_page cfg W domain start_url)
            (expand cfg W fuel domain depth)
            (add_visited domain start_url st).2.
Proof.
  cbn [crawl_category_pages]. unfold bind at 1. cbn [get_state fst snd].
  destruct (bool_decide _ || _); reflexivity.
Qed.

Lemma guard_false cfg (domain start_url : string) depth st :
  start_url ∉ visited_categories st !!! domain ->
  depth <= max_depth cfg ->
  bool_decide (start_url ∈ visited_categories st !!! domain)
  || (max_depth cfg <? depth) = false.
Proof.
  intros Hv Hd. rewrite bool_decide_eq_false_2 by exact Hv.
  destruct (Z.ltb_spec (max_depth cfg) depth); [lia | reflexivity].
Qed.

Section Expand.
Context (cfg : CrawlerConfig) (W : World).

Let always : string -> Prop := fun _ => True.

Lemma ok_follow fuel domain depth s g st :
  step_ok cfg always st (follow cfg W fuel domain depth s g st).2.
Proof.
  unfold follow. apply ok_seq.
  - destruct (Z.ltb_spec depth (max_depth cfg)); cbn [andb]; [|apply ok_refl].
    destruct (negb _); [|apply ok_refl].
    unfold bind at 1. cbn [get_state fst snd].
    apply ok_seq.
    + apply ok_spawn_all. intros u. cbn. lia.
    + apply ok_gather. intros t Ht.
      apply list_elem_of_fmap in Ht as (u & -> & Hu).
      intros st4. apply ok_crawl_category_pages; unfold always; auto.
  - intros st4. destruct (negb _); [|apply ok_refl].
    unfold bind at 1. cbn [get_state fst snd].
    apply ok_seq.
    + apply ok_spawn_all. intros u. cbn. lia.
    + apply ok_gather. intros t Ht.
      apply list_elem_of_fmap in Ht as (u & -> & Hu).
      intros st5. apply ok_crawl_category_pages; unfold always; auto.
Qed.

Lemma expand_eq fuel domain depth p s g st :
  expand cfg W fuel domain depth (p, s, g) st
  = follow cfg W fuel domain depth s g (update_products domain p st).2.
Proof. reflexivity. Qed.

Lemma expand_records_products fuel domain depth p s g st :
  p ⊆ product_urls (expand cfg W fuel domain depth (p, s, g) st).2 !!! domain.
Proof.
  rewrite expand_eq.
  etransitivity; [|apply (ok_products _ _ _ _ (ok_follow _ _ _ _ _ _))].
  cbn. rewrite lookup_total_insert_eq. set_solver.
Qed.

End Expand.

Lemma scan_links_some cfg W domain visited body out :
  scan_links cfg W domain visited (find_hrefs W body) = Some out ->
  links_join W domain body.
Proof.
  intros Hs href Hin.
  destruct (page_link W domain href) as [u|] eqn:Hj; [eauto|].
  assert (Hn : scan_links cfg W domain visited (find_hrefs W body) = None)
    by (apply scan_links_raises; eauto).
  congruence.
Qed.

Lemma links_join_scan cfg W domain visited body :
  links_join W domain body ->
  is_Some (scan_links cfg W domain visited (find_hrefs W body)).
Proof.
  intros Hj.
  destruct (scan_links cfg W domain visited (find_hrefs W body)) eqn:Hs;
    [eauto|].
  apply scan_links_raises in Hs as (h & Hin & Hn).
  destruct (Hj h Hin) as [u Hu]. congruence.
Qed.

(** What [process_page] does with a fetched, non-empty body. *)
Lemma process_page_fetched cfg W domain page_url st body st1 :
  fetch_url cfg W page_url 0 st = (Ret (Some body), st1) ->
  body <> ""%string ->
  process_page cfg W domain page_url st
  = match page_result cfg W domain st1 body with
    | Some found => (Ret found, st1)
    | None => (Raise, st1)
    end.
Proof.
  intros Hfetch Hbody. rewrite process_page_eq, Hfetch.
  destruct (String.eqb_spec body ""); [contradiction | reflexivity].
Qed.


Lemma defaults_in_fragment :
  in_fragment default_product_patterns
  /\ in_fragment default_category_patterns
  /\ in_fragment default_pagination_patterns.
Proof.
  unfold in_fragment.
  split; [|split]; apply (bool_decide_unpack _); vm_compute; exact Logic.I.
Qed.

Lemma defaults_supported cfg :
  product_patterns cfg = Some default_product_patterns ->
  category_patterns cfg = Some default_category_patterns ->
  pagination_patterns cfg = Some default_pagination_patterns ->
  supported cfg.
Proof.
  intros Hp Hc Hg. unfold supported. rewrite Hp, Hc, Hg.
  exact defaults_in_fragment.
Qed.



Ltac in_list :=
  repeat first [ apply list_elem_of_here | apply list_elem_of_further ].

Ltac by_compute := apply (bool_decide_unpack _); vm_compute; exact I.

(** * Depth rules *)

Lemma ok_event_spawn cfg kind parent url depth :
  ok_event cfg (Spawn kind parent url depth) <-> spawn_rule cfg kind parent depth.
Proof. destruct kind; reflexivity. Qed.

Lemma spawns_follow_rules cfg Pv st st' :
  step_ok cfg Pv st st' ->
  exists evs,
    trace st' = trace st ++ evs
    /\ forall kind parent url depth,
         Spawn kind parent url depth ∈ evs -> spawn_rule cfg kind parent depth.
Proof.
  intros [_ _ _ _ (evs & Ht & Hok)]. exists evs. split; [exact Ht|].
  intros kind parent url depth Hin. apply (ok_event_spawn cfg kind parent url).
  rewrite Forall_forall in Hok. exact (Hok _ Hin).
Qed.

(** C5. Every subcategory call is made by a parent whose depth is below
    [max_depth], at the parent's depth plus one, hence never beyond
    [max_depth]; every pagination call is made at the parent's own depth.  In
    the run over the chain of categories, the page at depth 3 = [max_depth]
    has its pagination link followed at depth 3 while its category link is
    not followed. *)
Theorem C5_depth_rules :
  (forall cfg W fuel domains st,
      exists evs,
        trace (crawl_domains cfg W fuel domains st).2 = trace st ++ evs
        /\ forall kind parent url depth,
             Spawn kind parent url depth ∈ evs ->
             spawn_rule cfg kind parent depth)
  /\ (forall cfg W fuel domain start_url depth0 st,
         exists evs,
           trace (crawl_category_pages cfg W fuel domain start_url depth0 st).2
           = trace st ++ evs
           /\ forall kind parent url depth,
                Spawn kind parent url depth ∈ evs ->
                spawn_rule cfg kind parent depth)
  /\ (forall cfg parent depth,
         spawn_rule cfg Subcategory parent depth -> depth <= max_depth cfg)
  /\ (max_depth default_config = 3
      /\ fst deep_run = Ret tt
      /\ Get "https://shop.test/c/a/b/c/d" ∈ trace deep_run.2
      /\ is_category_url default_config "https://shop.test/c/a/b/c/d/e" = true
      /\ (Get "https://shop.test/c/a/b/c/d/e" ∉ trace deep_run.2)
      /\ Spawn Pagination 3 "https://shop.test/c/a/b/c/d?page=2" 3
         ∈ trace deep_run.2
      /\ Get "https://shop.test/c/a/b/c/d?page=2" ∈ trace deep_run.2).
Proof.
  split; [|split; [|split]].
  - intros cfg W fuel domains st.
    apply (spawns_follow_rules cfg (fun _ => True)).
    apply ok_crawl_domains; auto.
  - intros cfg W fuel domain start_url depth0 st.
    apply (spawns_follow_rules cfg (fun _ => True)).
    apply ok_crawl_category_pages; auto.
  - intros cfg parent depth [H1 H2]. lia.
  - assert (Ht : trace deep_run.2 =
      [Delay (1 # 2)%Q; Get "https://shop.test";
       Spawn FromBatch 0 "https://shop.test/c/a" 0;
       Delay (1 # 2)%Q; Get "https://shop.test/c/a";
       Spawn Subcategory 0 "https://shop.test/c/a/b" 1;
       Delay (1 # 2)%Q; Get "https://shop.test/c/a/b";
       Spawn Subcategory 1 "https://shop.test/c/a/b/c" 2;
       Delay (1 # 2)%Q; Get "https://shop.test/c/a/b/c";
       Spawn Subcategory 2 "https://shop.test/c/a/b/c/d" 3;
       Delay (1 # 2)%Q; Get "https://shop.test/c/a/b/c/d";
       Spawn Pagination 3 "https://shop.test/c/a/b/c/d?page=2" 3;
       Delay (1 # 2)%Q; Get "https://shop.test/c/a/b/c/d?page=2"])
      by (vm_compute; reflexivity).
    split; [reflexivity|]. split; [vm_compute; reflexivity|].
    rewrite Ht.
    split; [in_list|]. split; [vm_compute; reflexivity|].
    split; [|split; in_list].
    intros Hin. repeat (apply elem_of_cons in Hin as [Hin|Hin]; [discriminate|]).
    inversion Hin.
Qed.

(** * The visited sets *)

(** C9, as the code has it.  No operation writes to [visited_urls]: it is the
    same after any run, so in a fetcher that starts empty the guard of
    [crawl_domain] is false for every domain.  The root URL is not marked by
    the fetch of [crawl_domain]; a URL enters [visited_categories] only if it
    is category- or pagination-classified. *)
Theorem C9_visited_urls_never_written cfg W fuel domains st :
  enumerates W ->
  let st' := (crawl_domains cfg W fuel domains st).2 in
  visited_urls st' = visited_urls st
  /\ (forall url retry_count s,
         visited_urls (fetch_url cfg W url retry_count s).2 = visited_urls s)
  /\ (forall domain url s,
         visited_urls (process_page cfg W domain url s).2 = visited_urls s)
  /\ (forall domain url depth s,
         visited_urls (crawl_category_pages cfg W fuel domain url depth s).2
         = visited_urls s)
  /\ (forall domain urls s,
         visited_urls (process_batch cfg W fuel domain urls s).2 = visited_urls s)
  /\ (forall domain s,
         visited_urls (crawl_domain cfg W fuel domain s).2 = visited_urls s)
  /\ (visited_urls st = ∅ ->
      forall domain base_url,
        bool_decide (base_url ∈ visited_urls st' !!! domain) = false)
  /\ (forall domain url,
         is_category_url cfg url = false ->
         is_pagination_url cfg url = false ->
         url ∉ visited_categories st !!! domain ->
         url ∉ visited_categories st' !!! domain).
Proof.
  intros HW st'.
  assert (Hsame : visited_urls st' = visited_urls st).
  { apply (ok_visited_urls cfg (fun _ => True)). apply ok_crawl_domains; auto. }
  split; [exact Hsame|].
  split; [intros; apply (ok_visited_urls cfg (fun _ => True)), ok_fetch_url|].
  split; [intros; apply (ok_visited_urls cfg (fun _ => True)), ok_process_page|].
  split; [intros; apply (ok_visited_urls cfg (fun _ => True)),
                    ok_crawl_category_pages; auto|].
  split; [intros; apply (ok_visited_urls cfg (fun _ => True)),
                    ok_process_batch; auto|].
  split; [intros; apply (ok_visited_urls cfg (fun _ => True)),
                    ok_crawl_domain; auto|].
  split.
  - intros Hempty domain base_url. rewrite Hsame, Hempty, lookup_total_empty.
    apply bool_decide_eq_false_2. set_solver.
  - intros domain url Hc Hp Hv Hin.
    pose (Pv := fun u => is_category_url cfg u = true
                         \/ is_pagination_url cfg u = true).
    assert (Hok : step_ok cfg Pv st st').
    { apply ok_crawl_domains; unfold Pv; auto.
      intros X u Hu HX. apply HX. now apply (enumerates_elem W). }
    destruct (ok_new_visited _ _ _ _ Hok domain url Hin) as [H|[H|H]];
      [contradiction | congruence | congruence].
Qed.

Lemma C9_visited_urls_never_written_witness :
  visited_urls
    (crawl_domains default_config (site_world shop_pages elements) 10
       ["shop.test"%string] (fresh default_config)).2
  = visited_urls (fresh default_config).
Proof.
  pose proof (C9_visited_urls_never_written default_config
                (site_world shop_pages elements) 10 ["shop.test"%string]
                (fresh default_config)) as H.
  refine (proj1 (H _)). intros X. reflexivity.
Defined.

(** C9 as stated fails in its last part: a root URL that is itself
    category-classified and linked from its own page is crawled as a category
    and so recorded in [visited_categories]. *)
Lemma C9_counterexample :
  fst selflink_run = Ret tt
  /\ normalize_domain "https://shop.test/shop/" = "shop.test/shop"%string
  /\ trace selflink_run.2
     = [Delay (1 # 2)%Q; Get "https://shop.test/shop";
        Spawn FromBatch 0 "https://shop.test/shop" 0;
        Delay (1 # 2)%Q; Get "https://shop.test/shop"]
  /\ visited_categories selflink_run.2 !!! "shop.test/shop"%string
     = {["https://shop.test/shop"%string]}.
Proof. repeat split; vm_compute; reflexivity. Qed.

(** C6. The root page escapes deduplication: crawling the same domain twice
    in one run fetches its root twice, and a root that is linked as a category
    is fetched once as root and once as category. *)
Theorem C6_root_fetched_twice :
  (fst twice_run = Ret tt
   /\ requests_of "https://shop.test" (trace twice_run.2) = 2%nat
   /\ max_retries default_config = 2
   /\ (forall q, Backoff q ∉ trace twice_run.2))
  /\ (fst selflink_run = Ret tt
      /\ requests_of "https://shop.test/shop" (trace selflink_run.2) = 2%nat
      /\ (forall q, Backoff q ∉ trace selflink_run.2)).
Proof.
  assert (Hno : forall (tr : list event),
             forallb (fun e => match e with Backoff _ => false | _ => true end) tr
             = true -> forall q, Backoff q ∉ tr).
  { intros tr H q Hin. rewrite forallb_forall in H.
    apply list_elem_of_In, H in Hin. discriminate. }
  repeat split; try (vm_compute; reflexivity).
  all: apply Hno; vm_compute; reflexivity.
Qed.

(** C4. With [max_pages_per_domain = 1] and two categories of three
    subcategories each, the second category is expanded when two pages are
    already visited; the remaining budget is -1, and the negative slice bound
    schedules two of its three subcategories instead of none. *)
Theorem C4_negative_budget_schedules :
  max_pages_per_domain budget_config = 1
  /\ fst budget_run = Ret tt
  /\ List.filter is_subcategory_spawn (trace budget_run.2)
     = [Spawn Subcategory 0 "https://shop.test/c/b/3" 1;
        Spawn Subcategory 0 "https://shop.test/c/b/1" 1]
  /\ size (visited_categories budget_run.2 !!! "shop.test"%string) = 4%nat
  /\ slice_to ["https://shop.test/c/b/3"; "https://shop.test/c/b/1";
               "https://shop.test/c/b/2"]%string (1 - 2)
     = ["https://shop.test/c/b/3"; "https://shop.test/c/b/1"]%string.
Proof. repeat split; vm_compute; reflexivity. Qed.

(** * End to end *)

(** C1, as the code has it.  The run ends with [/p/42] as the only product;
    the visited set holds the category page, its second page and also the
    product page, which the pagination pattern [/p/(\d+)] makes a pagination
    link; each of the four pages is requested once. *)
Theorem C1_end_to_end :
  fst shop_run = Ret tt
  /\ product_urls shop_run.2 !!! "shop.test"%string
     = {["https://shop.test/p/42"%string]}
  /\ visited_categories shop_run.2 !!! "shop.test"%string
     = {["https://shop.test/c/shoes"; "https://shop.test/c/shoes?page=2";
         "https://shop.test/p/42"]}%string
  /\ List.filter (fun e => match e with Get _ => true | _ => false end)
       (trace shop_run.2)
     = [Get "https://shop.test"; Get "https://shop.test/c/shoes";
        Get "https://shop.test/c/shoes?page=2"; Get "https://shop.test/p/42"].
Proof. repeat split; vm_compute; reflexivity. Qed.

(** C1 as stated fails: the product page is in the visited set, so the set
    is not made of the root, the category page and its second page. *)
Lemma C1_counterexample :
  "https://shop.test/p/42"%string
    ∈ visited_categories shop_run.2 !!! "shop.test"%string
  /\ visited_categories shop_run.2 !!! "shop.test"%string
     <> {["https://shop.test"; "https://shop.test/c/shoes";
          "https://shop.test/c/shoes?page=2"]}%string
  /\ (visited_categories shop_run.2 !!! "shop.test"%string)
     ∪ (visited_urls shop_run.2 !!! "shop.test"%string)
     <> {["https://shop.test"; "https://shop.test/c/shoes";
          "https://shop.test/c/shoes?page=2"]}%string.
Proof.
  assert (Hv : visited_categories shop_run.2 !!! "shop.test"%string
     = {["https://shop.test/c/shoes"; "https://shop.test/c/shoes?page=2";
         "https://shop.test/p/42"]}%string) by (vm_compute; reflexivity).
  assert (Hu : visited_urls shop_run.2 !!! "shop.test"%string = ∅)
    by (vm_compute; reflexivity).
  rewrite Hv, Hu. split; [by_compute|].
  split; by_compute.
Qed.

(** * Runs that return *)

Lemma bind_ret {A B : Type} (c : M A) (k : A -> M B) st b st' :
  bind c k st = (Ret b, st') ->
  exists a st1, c st = (Ret a, st1) /\ k a st1 = (Ret b, st').
Proof.
  unfold bind. destruct (c st) as [[a| | |] st1]; try discriminate. eauto.
Qed.

Lemma ok_of_run {A : Type} cfg Pv (c : M A) st a st' :
  c st = (Ret a, st') -> step_ok cfg Pv st (c st).2 -> step_ok cfg Pv st st'.
Proof. intros ->. auto. Qed.

Lemma spawn_all_frame kind parent depth urls :
  forall st,
    exists evs,
      spawn_all kind parent depth urls st = (Ret tt, add_events st evs).
Proof.
  unfold spawn_all. induction urls as [|u urls IH]; intros st; cbn [map gather].
  - exists []. unfold ret, add_events. rewrite app_nil_r. now destruct st.
  - unfold bind. cbn [log].
    destruct (IH (add_events st [Spawn kind parent u depth])) as [evs E].
    exists (Spawn kind parent u depth :: evs).
    unfold add_events in E at 1. rewrite E. f_equal. fetcher_eq.
Qed.

Lemma visited_fetched_events st evs :
  visited_fetched st -> visited_fetched (add_events st evs).
Proof.
  intros H d u Hu. cbn. apply elem_of_app. left. exact (H d u Hu).
Qed.

Section Returns.
Context (cfg : CrawlerConfig) (W : World).

Let always : string -> Prop := fun _ => True.

Lemma ok_always_crawl fuel domain url depth st :
  step_ok cfg always st (crawl_category_pages cfg W fuel domain url depth st).2.
Proof. apply ok_crawl_category_pages; unfold always; auto. Qed.

(** A page fetch that returns has requested the page and touched no
    dictionary. *)
Lemma process_page_ret domain page_url st found st' :
  process_page cfg W domain page_url st = (Ret found, st') ->
  visited_categories st' = visited_categories st
  /\ exists evs, trace st' = trace st ++ evs /\ Get page_url ∈ evs.
Proof.
  rewrite process_page_eq. unfold fetch_url.
  pose proof (fetch_url_from_frame cfg W
                (Z.to_nat (max_retries cfg - 0)) page_url 0 st) as H.
  cbn zeta in H.
  destruct (fetch_url_from cfg W _ page_url 0 st) as [[v| | |] s] eqn:E;
    try discriminate.
  intros Hrun. destruct H as (Hv & _ & _ & evs & Ht & _ & Hret).
  destruct (Hret v eq_refl) as [_ Hget].
  assert (Hs : s = st').
  { destruct v as [body|];
      [destruct (String.eqb body "");
       [|destruct (page_result cfg W domain s body)]|]; congruence. }
  subst s. split; [exact Hv|]. exists evs. auto.
Qed.

Section Children.
Context (fuel : nat) (domain : string) (depth : Z).
Context
  (IH : forall url st st',
      crawl_category_pages cfg W fuel domain url depth st = (Ret tt, st') ->
      crawled cfg domain url depth st st').

Lemma gather_crawl_ret targets :
  forall st st',
    gather (map (fun page_url =>
                   crawl_category_pages cfg W fuel domain page_url depth)
                targets) st = (Ret tt, st') ->
    (visited_fetched st -> visited_fetched st')
    /\ (depth <= max_depth cfg ->
        forall u, u ∈ targets -> u ∈ visited_categories st' !!! domain).
Proof.
  induction targets as [|t targets IHt]; intros st st' Hrun;
    cbn [map gather] in Hrun.
  - injection Hrun as <-. split; [auto|]. intros _ u Hu. inversion Hu.
  - apply bind_ret in Hrun as ([] & s1 & Hfirst & Hrest).
    destruct (IH _ _ _ Hfirst) as [Hvf1 Hin1].
    destruct (IHt _ _ Hrest) as [Hvf' Hin'].
    split; [auto|]. intros Hd u Hu.
    apply elem_of_cons in Hu as [->|Hu]; [|now apply Hin'].
    assert (Hok : step_ok cfg always s1 st').
    { eapply ok_of_run; [exact Hrest|]. apply ok_gather.
      intros c Hc. apply list_elem_of_fmap in Hc as (v & -> & _).
      intros s. apply ok_always_crawl. }
    apply (ok_visited _ _ _ _ Hok). now apply Hin1.
Qed.

Lemma spawn_crawl_ret kind parent spawn_depth targets st st' :
  bind (spawn_all kind parent spawn_depth targets)
       (fun _ => gather (map (fun page_url =>
                                crawl_category_pages cfg W fuel domain
                                  page_url depth) targets)) st
  = (Ret tt, st') ->
  (visited_fetched st -> visited_fetched st')
  /\ (depth <= max_depth cfg ->
      forall u, u ∈ targets -> u ∈ visited_categories st' !!! domain).
Proof.
  intros Hrun. unfold bind in Hrun.
  destruct (spawn_all_frame kind parent spawn_depth targets st) as [evs E].
  rewrite E in Hrun.
  destruct (gather_crawl_ret _ _ _ Hrun) as [Hvf Hin].
  split; [|exact Hin].
  intros H. apply Hvf. now apply visited_fetched_events.
Qed.

End Children.

Lemma crawl_category_pages_ret fuel :
  forall domain url depth st st',
    crawl_category_pages cfg W fuel domain url depth st = (Ret tt, st') ->
    crawled cfg domain url depth st st'.
Proof.
  induction fuel as [|fuel IH]; intros domain url depth st st' Hrun;
    [discriminate|].
  rewrite crawl_category_pages_unfold in Hrun.
  destruct (bool_decide (url ∈ visited_categories st !!! domain)) eqn:Hseen.
  { cbn [orb] in Hrun. injection Hrun as <-. split; [auto|].
    intros _. now apply bool_decide_eq_true in Hseen. }
  cbn [orb] in Hrun.
  destruct (Z.ltb_spec (max_depth cfg) depth) as [Hdeep|Hd].
  { injection Hrun as <-. split; [auto | lia]. }
  apply bind_ret in Hrun as ([[p s] g] & s2 & Hpage & Hexp).
  destruct (process_page_ret _ _ _ _ _ Hpage) as (Hv2 & evs & Ht2 & Hget).
  assert (Hvf2 : visited_fetched st -> visited_fetched s2).
  { intros Hvf d u Hu. rewrite Hv2 in Hu. rewrite Ht2.
    apply visited_after_add in Hu as [Hu|[_ ->]].
    - apply elem_of_app. left. exact (Hvf d u Hu).
    - apply elem_of_app. now right. }
  assert (Hmine : url ∈ visited_categories st' !!! domain).
  { assert (Hok : step_ok cfg always s2 st').
    { eapply ok_of_run; [exact Hexp|]. rewrite expand_eq.
      eapply ok_trans; [apply ok_update_products|]. apply ok_follow. }
    apply (ok_visited _ _ _ _ Hok). rewrite Hv2.
    apply visited_after_add. auto. }
  split; [|intros _; exact Hmine].
  intros Hvf. apply Hvf2 in Hvf.
  rewrite expand_eq in Hexp. unfold follow in Hexp.
  apply bind_ret in Hexp as ([] & s4 & Hsub & Hpag).
  assert (Hvf3 : visited_fetched (update_products domain p s2).2).
  { intros d u Hu. cbn in Hu |- *. exact (Hvf d u Hu). }
  assert (Hvf4 : visited_fetched s4).
  { destruct ((depth <? max_depth cfg) && negb (bool_decide (s = []))).
    - unfold bind at 1 in Hsub. cbn [get_state fst snd] in Hsub.
      eapply spawn_crawl_ret; [|exact Hsub|exact Hvf3].
      intros u0 a b. apply IH.
    - injection Hsub as <-. exact Hvf3. }
  destruct (negb (bool_decide (g = []))).
  - unfold bind at 1 in Hpag. cbn [get_state fst snd] in Hpag.
    eapply spawn_crawl_ret; [|exact Hpag|exact Hvf4].
    intros u0 a b. apply IH.
  - injection Hpag as <-. exact Hvf4.
Qed.

(** What returns after the page of a node: every pagination link of the
    page is visited. *)
Lemma follow_ret_pagination fuel domain depth s g st st' u :
  follow cfg W fuel domain depth s g st = (Ret tt, st') ->
  depth <= max_depth cfg ->
  u ∈ g ->
  (visited_fetched st -> visited_fetched st')
  /\ u ∈ visited_categories st' !!! domain.
Proof.
  intros Hrun Hd Hu. unfold follow in Hrun.
  apply bind_ret in Hrun as ([] & s4 & Hsub & Hpag).
  assert (Hvf4 : visited_fetched st -> visited_fetched s4).
  { destruct ((depth <? max_depth cfg) && negb (bool_decide (s = []))).
    - unfold bind at 1 in Hsub. cbn [get_state fst snd] in Hsub.
      eapply spawn_crawl_ret; [|exact Hsub].
      intros u0 a b. apply crawl_category_pages_ret.
    - injection Hsub as <-. auto. }
  rewrite bool_decide_eq_false_2 in Hpag
    by (intros ->; inversion Hu).
  cbn [negb] in Hpag.
  unfold bind at 1 in Hpag. cbn [get_state fst snd] in Hpag.
  destruct (spawn_crawl_ret fuel domain depth
              (fun url a b => crawl_category_pages_ret fuel domain url depth a b)
              _ _ _ _ _ _ Hpag) as [Hvf' Hin].
  split; [auto|].
  destruct (decide (u ∈ visited_categories s4 !!! domain)) as [Hseen|Hnew].
  - assert (Hok : step_ok cfg always s4 st').
    { eapply ok_of_run; [exact Hpag|].
      apply ok_seq.
      - apply ok_spawn_all. intros v. cbn. lia.
      - apply ok_gather. intros c Hc.
        apply list_elem_of_fmap in Hc as (v & -> & _).
        intros s0. apply ok_always_crawl. }
    now apply (ok_visited _ _ _ _ Hok).
  - apply Hin; [exact Hd|]. unfold unvisited.
    apply list_elem_of_filter. auto.
Qed.

End Returns.

Lemma process_page_joined cfg W domain page_url st body st1 found :
  fetch_url cfg W page_url 0 st = (Ret (Some body), st1) ->
  body <> ""%string ->
  scan_links cfg W domain (visited_categories st1 !!! domain) (find_hrefs W body)
  = Some found ->
  process_page cfg W domain page_url st
  = (Ret (found.1.1, list_of_set W found.1.2, list_of_set W found.2), st1).
Proof.
  intros Hfetch Hbody Hfound.
  rewrite (process_page_fetched _ _ _ _ _ _ _ Hfetch Hbody).
  unfold page_result. rewrite Hfound. reflexivity.
Qed.




(** * The configuration *)

(** X1. [__post_init__] gives each pattern list that was left at [None] its
    default and keeps a list that was given; afterwards no list is [None], a
    second run changes nothing, and the numeric settings are untouched. *)
Theorem post_init_fills_defaults c :
  product_patterns (post_init c)
  = Some (default default_product_patterns (product_patterns c))
  /\ category_patterns (post_init c)
     = Some (default default_category_patterns (category_patterns c))
  /\ pagination_patterns (post_init c)
     = Some (default default_pagination_patterns (pagination_patterns c))
  /\ post_init (post_init c) = post_init c
  /\ max_pages_per_domain (post_init c) = max_pages_per_domain c
  /\ max_concurrent_requests (post_init c) = max_concurrent_requests c
  /\ batch_size (post_init c) = batch_size c
  /\ max_retries (post_init c) = max_retries c
  /\ max_depth (post_init c) = max_depth c.
Proof.
  destruct c as [a1 a2 a3 a4 a5 a6 a7 a8 [p|] [c|] [g|] a12];
    repeat split; reflexivity.
Qed.

(** * [fetch_url] *)

(** X2. On a 200 answer [fetch_url] returns the body after one request, without
    any back-off, whatever [retry_count] is; the state changes by the events
    of that one attempt only. *)
Theorem fetch_url_success cfg W url retry_count st body :
  0 < semaphore st ->
  http_get W url (requests_of url (trace st)) = Response 200 body ->
  fetch_url cfg W url retry_count st
  = (Ret (Some body), add_events st (attempt_events cfg url))
  /\ requests_of url (attempt_events cfg url) = 1%nat
  /\ (forall q, Backoff q ∉ attempt_events cfg url).
Proof.
  intros Hsem Hget. split; [|split].
  - unfold fetch_url.
    rewrite (fetch_url_from_status cfg W _ url retry_count st 200 body);
      auto; lia.
  - apply requests_of_attempt.
  - intros q. unfold attempt_events.
    destruct (negb _); intros H;
      repeat (apply elem_of_cons in H as [H|H]; [discriminate|]);
      inversion H.
Qed.

Lemma fetch_url_success_witness :
  fetch_url default_config (site_world shop_pages elements) "https://shop.test" 0
    (fresh default_config)
  = (Ret (Some "<a href='/c/shoes'>Shoes</a>"%string),
     add_events (fresh default_config)
       (attempt_events default_config "https://shop.test")).
Proof.
  apply (fetch_url_success default_config (site_world shop_pages elements)
           "https://shop.test" 0 (fresh default_config)).
  - vm_compute. reflexivity.
  - vm_compute. reflexivity.
Defined.

Section FetchBounds.
Context (cfg : CrawlerConfig) (W : World).

Lemma requests_of_attempt_other url u :
u <> url -> requests_of u (attempt_events cfg url) = 0%nat.
Proof.
intros Hne.
assert (E : String.eqb url u = false) by (apply String.eqb_neq; congruence).
unfold attempt_events, requests_of.
destruct (negb _); simpl; rewrite E; reflexivity.
Qed.

Lemma no_spawn_attempt url kind p u d :
Spawn kind p u d ∉ attempt_events cfg url.
Proof.
unfold attempt_events. destruct (negb _); intros H;
  repeat (apply elem_of_cons in H as [H|H]; [discriminate|]); inversion H.
Qed.

(** The requests of a call with [left] retries available. *)
Lemma fetch_url_from_requests left :
forall url retry_count st,
  exists evs,
    trace (fetch_url_from cfg W left url retry_count st).2 = trace st ++ evs
    /\ (forall u, u <> url -> requests_of u evs = 0%nat)
    /\ (requests_of url evs <= S left)%nat.
Proof.
induction left as [|left IH]; intros url retry_count st;
  rewrite fetch_url_from_eq.
all: destruct (semaphore st <=? 0);
  [ exists []; cbn; rewrite app_nil_r; repeat split; auto; lia |].
all: assert (Hone : forall v : option string,
       exists evs,
         trace (Ret v, add_events st (attempt_events cfg url)).2
         = trace st ++ evs
         /\ (forall u, u <> url -> requests_of u evs = 0%nat)
         /\ (requests_of url evs <= 1)%nat)
    by (intros v; exists (attempt_events cfg url); cbn; repeat split;
        [ intros u Hu; now apply requests_of_attempt_other
        | now rewrite requests_of_attempt ]).
- assert (Hretry : exists evs,
            trace (retried cfg W 0 url retry_count st).2 = trace st ++ evs
            /\ (forall u, u <> url -> requests_of u evs = 0%nat)
            /\ (requests_of url evs <= 1)%nat).
  { exists (attempt_events cfg url ++ [Backoff (backoff_seconds retry_count)]).
    cbn. rewrite app_assoc. repeat split.
    - intros u Hu. rewrite requests_of_app, requests_of_attempt_other by auto.
      reflexivity.
    - rewrite requests_of_app, requests_of_attempt. cbn. lia. }
  destruct (http_get W url _) as [status body|];
    repeat match goal with
      | |- context [if ?b then _ else _] => destruct b
      end; auto.
- assert (Hretry : exists evs,
            trace (retried cfg W (S left) url retry_count st).2 = trace st ++ evs
            /\ (forall u, u <> url -> requests_of u evs = 0%nat)
            /\ (requests_of url evs <= S (S left))%nat).
  { unfold retried.
    set (st1 := add_events (attempted cfg url st) _).
    destruct (IH url (retry_count + 1) st1) as (evs & Ht & Hother & Hmine).
    exists ((attempt_events cfg url ++ [Backoff (backoff_seconds retry_count)])
            ++ evs).
    split; [|split].
    - transitivity (trace (fetch_url_from cfg W left url (retry_count + 1) st1).2).
      + destruct (fetch_url_from cfg W left url (retry_count + 1) st1)
          as [[v| | |] s]; reflexivity.
      + rewrite Ht. subst st1. cbn. now rewrite <- !app_assoc.
    - intros u Hu.
      rewrite !requests_of_app, requests_of_attempt_other, Hother by auto.
      reflexivity.
    - rewrite !requests_of_app, requests_of_attempt.
      change (requests_of url [Backoff _]) with 0%nat. lia. }
  destruct (http_get W url _) as [status body|];
    repeat match goal with
      | |- context [if ?b then _ else _] => destruct b
      end;
    try exact Hretry;
    destruct (Hone None) as (evs & H1 & H2 & H3);
    try (destruct (Hone (Some body)) as (evs' & H1' & H2' & H3'));
    eexists; (split; [eassumption|]); split; auto; lia.
Qed.

(** With no more free slots than retries allowed, a run of retryable
  answers leaves [fetch_url] waiting for a slot that its own callers
  hold. *)
Lemma fetch_url_from_blocks left :
forall url retry_count st,
  semaphore st <= Z.of_nat left ->
  semaphore st <= max_retries cfg - retry_count ->
  (forall i, (Z.of_nat i < semaphore st) ->
             retryable (http_get W url (requests_of url (trace st) + i))) ->
  (fetch_url_from cfg W left url retry_count st).1 = Blocked.
Proof.
induction left as [|left IH]; intros url retry_count st Hsem Hleft Hall;
  rewrite fetch_url_from_eq.
- destruct (Z.leb_spec (semaphore st) 0); [reflexivity | lia].
- destruct (Z.leb_spec (semaphore st) 0); [reflexivity|].
  destruct (Z.ltb_spec retry_count (max_retries cfg)); [|lia].
  assert (Hretry : (retried cfg W (S left) url retry_count st).1 = Blocked).
  { unfold retried.
    set (st1 := add_events (attempted cfg url st) _).
    assert (H1 : (fetch_url_from cfg W left url (retry_count + 1) st1).1
                 = Blocked).
    { apply IH.
      - subst st1. cbn. lia.
      - subst st1. cbn. lia.
      - intros i Hi. subst st1.
        cbn [trace add_events attempted set_semaphore semaphore] in *.
        rewrite !requests_of_app, requests_of_attempt.
        change (requests_of url [Backoff _]) with 0%nat.
        replace (requests_of url (trace st) + 1 + 0 + i)%nat
          with (requests_of url (trace st) + S i)%nat by lia.
        apply Hall. lia. }
    destruct (fetch_url_from cfg W left url (retry_count + 1) st1)
      as [[v| | |] s]; cbn in H1 |- *; congruence. }
  pose proof (Hall O ltac:(lia)) as Hfirst. rewrite Nat.add_0_r in Hfirst.
  destruct (http_get W url _) as [status body|]; [|exact Hretry].
  cbn in Hfirst. subst status. exact Hretry.
Qed.

End FetchBounds.

Lemma fetch_url_effects cfg W url retry_count st :
  let out := fetch_url cfg W url retry_count st in
  visited_categories out.2 = visited_categories st
  /\ product_urls out.2 = product_urls st
  /\ visited_urls out.2 = visited_urls st
  /\ (exists evs,
         trace out.2 = trace st ++ evs
         /\ (forall u, u <> url -> requests_of u evs = 0%nat)
         /\ (requests_of url evs
             <= Z.to_nat (max_retries cfg - retry_count) + 1)%nat
         /\ Forall is_io evs)
  /\ (forall v, out.1 = Ret v -> semaphore out.2 = semaphore st).
Proof.
  cbn zeta. unfold fetch_url.
  set (left := Z.to_nat (max_retries cfg - retry_count)).
  pose proof (fetch_url_from_frame cfg W left url retry_count st) as Hf.
  cbn zeta in Hf. destruct Hf as (H1 & H2 & H3 & evs & Ht & Hio & Hret).
  destruct (fetch_url_from_requests cfg W left url retry_count st)
    as (evs' & Ht' & Hother & Hmine).
  assert (evs' = evs) as -> by (rewrite Ht in Ht'; now apply app_inv_head in Ht').
  repeat split; auto.
  - exists evs. repeat split; auto. lia.
  - intros v Hv. now destruct (Hret v Hv).
Qed.

(** X3. [fetch_url] touches none of the three dictionaries; it requests no URL
    but its own, at most [max_retries - retry_count + 1] times (once when no
    retry is left); it spawns no traversal; and when it returns, the
    semaphore has the free slots it had before. *)
Theorem fetch_url_frame cfg W url retry_count st :
  let out := fetch_url cfg W url retry_count st in
  visited_categories out.2 = visited_categories st
  /\ product_urls out.2 = product_urls st
  /\ visited_urls out.2 = visited_urls st
  /\ (exists evs,
         trace out.2 = trace st ++ evs
         /\ (forall u, u <> url -> requests_of u evs = 0%nat)
         /\ (requests_of url evs
             <= Z.to_nat (max_retries cfg - retry_count) + 1)%nat
         /\ Forall is_io evs)
  /\ (forall v, out.1 = Ret v -> semaphore out.2 = semaphore st).
Proof. exact (fetch_url_effects cfg W url retry_count st). Qed.



(** * [process_page] and the guard of [crawl_category_pages] *)



(** X6. A URL that is already visited, or a depth beyond [max_depth], ends
    [crawl_category_pages] at once: nothing is requested and the fetcher is
    unchanged. *)
Theorem crawl_category_pages_guard cfg W fuel domain start_url depth st :
  start_url ∈ visited_categories st !!! domain \/ max_depth cfg < depth ->
  crawl_category_pages cfg W (S fuel) domain start_url depth st = (Ret tt, st).
Proof.
  intros H. rewrite crawl_category_pages_unfold.
  destruct H as [H|H].
  - now rewrite bool_decide_eq_true_2.
  - destruct (Z.ltb_spec (max_depth cfg) depth); [|lia].
    now rewrite orb_true_r.
Qed.

Lemma crawl_category_pages_guard_witness :
  crawl_category_pages default_config (site_world shop_pages elements) 1
    "shop.test" "https://shop.test/c/shoes" 4 (fresh default_config)
  = (Ret tt, fresh default_config).
Proof.
  apply (crawl_category_pages_guard default_config
           (site_world shop_pages elements) 0 "shop.test"
           "https://shop.test/c/shoes" 4 (fresh default_config)).
  right. reflexivity.
Defined.

(** * The page budget *)

Lemma length_unvisited domain st l :
  (length (unvisited domain st l) <= length l)%nat.
Proof. unfold unvisited. apply length_filter. Qed.

(** X7. With a budget that is not negative, the subcategories scheduled are
    taken from the first [remaining_pages] candidates, so they are at most
    that many; a budget of [-k] keeps all candidates but the last [k]. *)
Theorem budget_slice domain st (subcategories : list string) remaining_pages :
  (0 <= remaining_pages ->
   slice_to subcategories remaining_pages
   = take (Z.to_nat remaining_pages) subcategories
   /\ Z.of_nat (length (unvisited domain st
                          (slice_to subcategories remaining_pages)))
      <= remaining_pages)
  /\ (remaining_pages < 0 ->
      slice_to subcategories remaining_pages
      = take (length subcategories - Z.to_nat (- remaining_pages)) subcategories)
  /\ (forall u, u ∈ unvisited domain st (slice_to subcategories remaining_pages) ->
                u ∈ subcategories /\ u ∉ visited_categories st !!! domain).
Proof.
  split; [|split].
  - intros Hn. unfold slice_to.
    destruct (Z.ltb_spec remaining_pages 0); [lia|]. split; [reflexivity|].
    pose proof (length_unvisited domain st
                  (take (Z.to_nat remaining_pages) subcategories)) as H1.
    rewrite length_take in H1. lia.
  - intros Hn. unfold slice_to.
    destruct (Z.ltb_spec remaining_pages 0); [|lia].
    f_equal. lia.
  - intros u Hu. unfold unvisited in Hu.
    apply list_elem_of_filter in Hu as [Hnew Hin]. split; [|exact Hnew].
    unfold slice_to in Hin.
    destruct (remaining_pages <? 0);
      apply list_elem_of_lookup in Hin as [i Hi];
      apply lookup_take_Some in Hi as [Hi _];
      apply list_elem_of_lookup; eauto.
Qed.

(** * Batches *)

Lemma chunks_concat {A : Type} n :
  (0 < n)%nat ->
  forall fuel (l : list A),
    (length l <= fuel)%nat ->
    concat (chunks fuel n l) = l
    /\ Forall (fun b => (0 < length b <= n)%nat) (chunks fuel n l).
Proof.
  intros Hn. induction fuel as [|fuel IH]; intros l Hl.
  - destruct l; [split; [reflexivity|constructor] | cbn in Hl; lia].
  - destruct l as [|a l]; [split; [reflexivity|constructor]|].
    cbn [chunks concat].
    destruct (IH (drop n (a :: l))) as [Hc Hf].
    { rewrite length_drop. cbn [length] in *. lia. }
    split.
    + rewrite Hc. apply take_drop.
    + constructor; [|exact Hf]. rewrite length_take. cbn [length]. lia.
Qed.

(** X8. With a positive [batch_size], the batches of [crawl_domain] are the list
    of category URLs cut into consecutive pieces: put end to end they give
    the list back, and each has between one and [batch_size] URLs. *)
Theorem batches_partition {A : Type} (size : Z) (l : list A) :
  0 < size ->
  exists bs,
    batches size l = Some bs
    /\ concat bs = l
    /\ Forall (fun b => (0 < length b)%nat /\ Z.of_nat (length b) <= size) bs.
Proof.
  intros Hsize. unfold batches.
  destruct (Z.eqb_spec size 0); [lia|].
  destruct (Z.ltb_spec size 0); [lia|].
  destruct (chunks_concat (A:=A) (Z.to_nat size) ltac:(lia) (length l) l (le_n _))
    as [Hc Hf].
  eexists. split; [reflexivity|]. split; [exact Hc|].
  eapply Forall_impl; [exact Hf|]. cbn. intros b Hb. lia.
Qed.

Lemma batches_partition_witness :
  exists bs,
    batches 2 ["a"; "b"; "c"]%string = Some bs
    /\ concat bs = ["a"; "b"; "c"]%string
    /\ Forall (fun b => (0 < length b)%nat /\ Z.of_nat (length b) <= 2) bs.
Proof.
  apply (batches_partition 2 ["a"; "b"; "c"]%string). reflexivity.
Defined.

(** * [crawl_domain] *)

Lemma crawl_domain_unfold cfg W fuel domain st :
  crawl_domain cfg W fuel domain st =
  let d := normalize_domain domain in
  let base_url := ("https://" +:+ d)%string in
  if bool_decide (base_url ∈ visited_urls st !!! d) then (Ret tt, st)
  else
    match fetch_url cfg W base_url 0 st with
    | (Ret (Some body), st1) =>
        if String.eqb body "" then (Ret tt, st1)
        else
          match root_categories cfg W base_url (find_hrefs W body) with
          | None => (Raise, st1)
          | Some category_urls =>
              match batches (batch_size cfg) (list_of_set W category_urls) with
              | None => (Raise, st1)
              | Some category_batches =>
                  gather (map (process_batch cfg W fuel d) category_batches) st1
              end
          end
    | (Ret None, st1) => (Ret tt, st1)
    | (Raise, st1) => (Raise, st1)
    | (Blocked, st1) => (Blocked, st1)
    | (OutOfFuel, st1) => (OutOfFuel, st1)
    end.
Proof.
  unfold crawl_domain. cbn zeta. unfold bind at 1. cbn [get_state fst snd].
  destruct (bool_decide _); [reflexivity|].
  unfold bind.
  destruct (fetch_url cfg W _ 0 st) as [[[body|]| | |] st1]; try reflexivity.
  destruct (String.eqb body ""); [reflexivity|].
  destruct (root_categories _ _ _ _); [|reflexivity].
  destruct (batches _ _); reflexivity.
Qed.

(** The loop over the links of the root page raises exactly when some link
    cannot be joined. *)
Lemma root_categories_raises cfg W base_url hrefs :
  root_categories cfg W base_url hrefs = None
  <-> exists h, h ∈ hrefs /\ urljoin W base_url h = None.
Proof.
  unfold root_categories. generalize (∅ : gset string).
  induction hrefs as [|h hrefs IH]; intros acc; cbn [foldl].
  - split; [discriminate | intros (h & Hh & _); inversion Hh].
  - unfold root_link at 2.
    destruct (urljoin W base_url h) as [full|] eqn:Hj.
    + rewrite IH. split; intros (h' & Hin & Hn).
      * exists h'. rewrite elem_of_cons. auto.
      * apply elem_of_cons in Hin as [->|Hin]; [congruence | eauto].
    + rewrite root_link_none. split; [|reflexivity].
      intros _. exists h. split; [left | exact Hj].
Qed.

(** X9. A root page that cannot be had (the fetch gives [None] or an empty
    body) ends [crawl_domain] quietly: it returns, and no dictionary has
    changed. *)
Theorem crawl_domain_failed_root cfg W fuel domain st v st1 :
  fetch_url cfg W ("https://" +:+ normalize_domain domain) 0 st = (Ret v, st1) ->
  v = None \/ v = Some ""%string ->
  exists st',
    crawl_domain cfg W fuel domain st = (Ret tt, st')
    /\ visited_categories st' = visited_categories st
    /\ product_urls st' = product_urls st
    /\ visited_urls st' = visited_urls st.
Proof.
  intros Hfetch Hv. rewrite crawl_domain_unfold. cbn zeta.
  destruct (bool_decide _); [exists st; auto|].
  pose proof (fetch_url_effects cfg W ("https://" +:+ normalize_domain domain) 0 st)
    as Hf.
  cbn zeta in Hf. rewrite Hfetch in *. cbn [fst snd] in Hf.
  destruct Hf as (H1 & H2 & H3 & _).
  exists st1. destruct Hv as [-> | ->]; auto.
Qed.

Lemma crawl_domain_failed_root_witness :
  exists st',
    crawl_domain default_config (status_world 404) 10 "https://x.test/"
      (fresh default_config) = (Ret tt, st')
    /\ visited_categories st' = ∅
    /\ product_urls st' = ∅
    /\ visited_urls st' = ∅.
Proof.
  apply (crawl_domain_failed_root default_config (status_world 404) 10
           "https://x.test/" (fresh default_config) None
           (add_events (fresh default_config)
              (attempt_events default_config "https://x.test"))).
  - vm_compute. reflexivity.
  - left. reflexivity.
Defined.



(** * [normalize_domain] *)

Lemma rstrip_slash_cons c s :
  rstrip_slash (String c s)
  = if String.eqb (rstrip_slash s) "" && Ascii.eqb c "/" then ""%string
    else String c (rstrip_slash s).
Proof. reflexivity. Qed.

Lemma rstrip_slash_no_slash s : ~ ends_with_slash (rstrip_slash s).
Proof.
  induction s as [|c s IH]; intros [s' Hs'].
  - destruct s'; discriminate.
  - rewrite rstrip_slash_cons in Hs'.
    destruct (String.eqb_spec (rstrip_slash s) "") as [He|He]; cbn [andb] in Hs'.
    + destruct (Ascii.eqb_spec c "/") as [Hc|Hc].
      * destruct s'; discriminate.
      * destruct s' as [|c' s'']; cbn in Hs'.
        -- injection Hs' as Hc' _. contradiction.
        -- injection Hs' as _ Hr. rewrite He in Hr. destruct s''; discriminate.
    + destruct s' as [|c' s'']; cbn in Hs'.
      * injection Hs' as _ Hr. contradiction.
      * injection Hs' as _ Hr. apply IH. exists s''. exact Hr.
Qed.

Lemma rstrip_slash_fixed s : ~ ends_with_slash s -> rstrip_slash s = s.
Proof.
  induction s as [|c s IH]; intros Hs; [reflexivity|].
  rewrite rstrip_slash_cons.
  assert (Hs' : ~ ends_with_slash s).
  { intros [s' ->]. apply Hs. exists (String c s'). reflexivity. }
  rewrite (IH Hs').
  destruct (String.eqb_spec s "") as [->|Hne]; cbn [andb]; [|reflexivity].
  destruct (Ascii.eqb_spec c "/") as [->|Hc]; [|reflexivity].
  exfalso. apply Hs. exists ""%string. reflexivity.
Qed.

(** X11. The domain that [crawl_domain] works with never ends in a slash, so the
    base URL [https://domain] does not either; stripping is idempotent, and a
    plain host name is given back unchanged, with or without a scheme and a
    trailing slash. *)
Theorem normalize_domain_no_trailing_slash :
  (forall domain, ~ ends_with_slash (normalize_domain domain))
  /\ (forall s, rstrip_slash (rstrip_slash s) = rstrip_slash s)
  /\ normalize_domain "https://shop.test/" = "shop.test"%string
  /\ normalize_domain "http://shop.test" = "shop.test"%string
  /\ normalize_domain "shop.test//" = "shop.test"%string
  /\ normalize_domain "https://shop.test/shop/" = "shop.test/shop"%string.
Proof.
  split; [|split].
  - intros domain. apply rstrip_slash_no_slash.
  - intros s. apply rstrip_slash_fixed, rstrip_slash_no_slash.
  - repeat split; reflexivity.
Qed.

(** * [save_results] *)

(** X12. The dictionary written by [save_results] has exactly the domains of
    [product_urls], and lists for each the URLs of its set, each once. *)
Theorem save_results_faithful W st :
  enumerates W ->
  dom (save_results W st) = dom (product_urls st)
  /\ (forall d l,
         save_results W st !! d = Some l ->
         exists X, product_urls st !! d = Some X
                   /\ NoDup l
                   /\ (forall u, u ∈ l <-> u ∈ X)
                   /\ length l = size X).
Proof.
  intros HW. unfold save_results. split.
  - apply dom_fmap_L.
  - intros d l Hl. rewrite lookup_fmap in Hl.
    destruct (product_urls st !! d) as [X|]; [|discriminate].
    injection Hl as <-. exists X. split; [reflexivity|].
    pose proof (HW X) as Hperm. split; [|split].
    + rewrite Hperm. apply NoDup_elements.
    + intros u. rewrite Hperm. apply elem_of_elements.
    + rewrite Hperm. reflexivity.
Qed.

Lemma save_results_faithful_witness :
  dom (save_results (site_world shop_pages elements) shop_run.2)
  = dom (product_urls shop_run.2).
Proof.
  refine (proj1 (save_results_faithful (site_world shop_pages elements)
                   shop_run.2 _)).
  intros X. reflexivity.
Defined.

(** * Properties of the dictionaries kept by the whole traversal *)

Lemma keeps_ret {A : Type} (I : Fetcher -> Prop) (Q : A -> Prop) a :
  Q a -> keeps I Q (ret a).
Proof. intros HQ st HI. split; [exact HI|]. now intros a' [= <-]. Qed.

Lemma keeps_bind {A B : Type} (I : Fetcher -> Prop) (Q : A -> Prop)
    (R : B -> Prop) (c : M A) (k : A -> M B) :
  keeps I Q c -> (forall a, Q a -> keeps I R (k a)) -> keeps I R (bind c k).
Proof.
  intros Hc Hk st HI. unfold bind. destruct (Hc st HI) as [HI1 HQ].
  destruct (c st) as [[a| | |] st1]; cbn in *;
    try (split; [exact HI1 | discriminate]).
  apply Hk; auto.
Qed.

Lemma keeps_weaken {A : Type} (I : Fetcher -> Prop) (Q R : A -> Prop) (c : M A) :
  keeps I Q c -> (forall a, Q a -> R a) -> keeps I R c.
Proof.
  intros Hc HQR st HI. destruct (Hc st HI) as [HI1 HQ]. split; auto.
Qed.

Lemma keeps_gather (I : Fetcher -> Prop) tasks :
  (forall t, t ∈ tasks -> keeps I (fun _ => True) t) ->
  keeps I (fun _ => True) (gather tasks).
Proof.
  induction tasks as [|t ts IH]; intros H; cbn [gather].
  - now apply keeps_ret.
  - apply (keeps_bind I (fun _ => True)).
    + apply H. left.
    + intros _ _. apply IH. intros t' Ht'. apply H. now right.
Qed.

Section Keeps.
Context (cfg : CrawlerConfig) (W : World).
Context (I : Fetcher -> Prop) (Dom : string -> Prop).
Context
(Hdict : on_dicts I)
(Hadd : forall domain url st,
    Dom domain -> I st -> I (add_visited domain url st).2)
(Hupd : forall domain products st,
    Dom domain ->
    (forall u, u ∈ products -> is_product_url cfg u = true) ->
    I st -> I (update_products domain products st).2).

Local Abbreviation always := (fun _ => True).

Lemma keeps_get_state : keeps I always get_state.
Proof. intros st HI. split; auto. Qed.

Lemma keeps_log e : keeps I always (log e).
Proof. intros st HI. split; [|auto]. revert HI. now apply Hdict. Qed.

Lemma keeps_spawn_all kind parent depth urls :
keeps I always (spawn_all kind parent depth urls).
Proof.
unfold spawn_all. apply keeps_gather. intros t Ht.
apply list_elem_of_fmap in Ht as (u & -> & _). apply keeps_log.
Qed.

Lemma keeps_fetch_url url retry_count :
keeps I always (fetch_url cfg W url retry_count).
Proof.
intros st HI. split; [|auto].
pose proof (fetch_url_effects cfg W url retry_count st) as Hf. cbn zeta in Hf.
destruct Hf as (H1 & H2 & H3 & _). revert HI. now apply Hdict.
Qed.

Lemma keeps_process_page domain page_url :
keeps I (fun found => forall u, u ∈ found.1.1 -> is_product_url cfg u = true)
  (process_page cfg W domain page_url).
Proof.
intros st HI. rewrite process_page_eq.
destruct (keeps_fetch_url page_url 0 st HI) as [HI1 _].
destruct (fetch_url cfg W page_url 0 st) as [[[body|]| | |] st'];
  cbn [fst snd] in *; try (split; [exact HI1 | discriminate]).
- destruct (String.eqb body ""); cbn [fst snd].
  + split; [exact HI1|]. intros found [= <-]; cbn [fst snd]; intros u Hu.
    now apply not_elem_of_empty in Hu.
  + destruct (page_result cfg W domain st' body) as [res|] eqn:Hres;
      cbn [fst snd]; (split; [exact HI1|]); [|discriminate].
    intros found [= <-] u Hu.
    apply page_result_spec in Hres as (out & Hout & ->). cbn [fst snd] in Hu.
    apply (scan_links_spec cfg W domain _ (find_hrefs W body) out u Hout)
      in Hu.
    destruct Hu as (h & _ & _ & Hp). exact Hp.
- split; [exact HI1|]. intros found [= <-] u Hu.
  now apply not_elem_of_empty in Hu.
Qed.

Lemma keeps_crawl_category_pages fuel :
forall domain start_url depth,
  Dom domain ->
  keeps I always (crawl_category_pages cfg W fuel domain start_url depth).
Proof.
induction fuel as [|fuel IH]; intros domain start_url depth Hdom.
- intros st HI. split; [exact HI | discriminate].
- cbn [crawl_category_pages].
  apply (keeps_bind I always); [apply keeps_get_state|]. intros st0 _.
  destruct (bool_decide _ || _); [now apply keeps_ret|].
  apply (keeps_bind I always).
  { intros st HI. split; [now apply Hadd | auto]. }
  intros _ _.
  eapply keeps_bind; [apply keeps_process_page|].
  intros [[p s] g] Hp. cbn [fst snd] in Hp.
  apply (keeps_bind I always).
  { intros st HI. split; [now apply Hupd | auto]. }
  intros _ _.
  apply (keeps_bind I always).
  + destruct (_ && _); [|now apply keeps_ret].
    apply (keeps_bind I always); [apply keeps_get_state|]. intros st1 _.
    apply (keeps_bind I always); [apply keeps_spawn_all|]. intros _ _.
    apply keeps_gather. intros t Ht.
    apply list_elem_of_fmap in Ht as (u & -> & _). now apply IH.
  + intros _ _. destruct (negb _); [|now apply keeps_ret].
    apply (keeps_bind I always); [apply keeps_get_state|]. intros st1 _.
    apply (keeps_bind I always); [apply keeps_spawn_all|]. intros _ _.
    apply keeps_gather. intros t Ht.
    apply list_elem_of_fmap in Ht as (u & -> & _). now apply IH.
Qed.

Lemma keeps_process_batch fuel domain urls :
Dom domain -> keeps I always (process_batch cfg W fuel domain urls).
Proof.
intros Hdom. unfold process_batch.
apply (keeps_bind I always); [apply keeps_get_state|]. intros st1 _.
apply (keeps_bind I always); [apply keeps_spawn_all|]. intros _ _.
apply keeps_gather. intros t Ht.
apply list_elem_of_fmap in Ht as (u & -> & _).
now apply keeps_crawl_category_pages.
Qed.

Lemma keeps_crawl_domain fuel domain :
Dom (normalize_domain domain) ->
keeps I always (crawl_domain cfg W fuel domain).
Proof.
intros Hdom. unfold crawl_domain. cbn zeta.
apply (keeps_bind I always); [apply keeps_get_state|]. intros st0 _.
destruct (bool_decide _); [now apply keeps_ret|].
apply (keeps_bind I always); [apply keeps_fetch_url|].
intros [body|] _; [|now apply keeps_ret].
destruct (String.eqb body ""); [now apply keeps_ret|].
destruct (root_categories _ _ _ _) as [category_urls|];
  [|intros st HI; split; [exact HI | discriminate]].
destruct (batches _ _) as [bs|].
- apply keeps_gather. intros t Ht.
  apply list_elem_of_fmap in Ht as (b & -> & _).
  now apply keeps_process_batch.
- intros st HI. split; [exact HI | discriminate].
Qed.

Lemma keeps_crawl_domains fuel domains :
(forall d, d ∈ domains -> Dom (normalize_domain d)) ->
keeps I always (crawl_domains cfg W fuel domains).
Proof.
intros Hdom. unfold crawl_domains. apply keeps_gather. intros t Ht.
apply list_elem_of_fmap in Ht as (d & -> & Hd).
apply keeps_crawl_domain. auto.
Qed.

End Keeps.

Lemma save_results_lookup W st d l u :
  enumerates W ->
  save_results W st !! d = Some l -> u ∈ l -> u ∈ product_urls st !!! d.
Proof.
  intros HW Hl Hu. unfold save_results in Hl. rewrite lookup_fmap in Hl.
  rewrite lookup_total_alt.
  destruct (product_urls st !! d) as [X|]; [|discriminate].
  injection Hl as <-. cbn. now apply (enumerates_elem W) in Hu.
Qed.

(** X13. Whatever the crawl meets, every URL it records as a product is
    product-classified, and so is every URL that [save_results] writes. *)
Theorem products_stay_classified cfg W fuel domains st :
  products_classified cfg st ->
  let st' := (crawl_domains cfg W fuel domains st).2 in
  products_classified cfg st'
  /\ (enumerates W ->
      forall d l u,
        save_results W st' !! d = Some l -> u ∈ l -> is_product_url cfg u = true).
Proof.
  intros Hst st'.
  assert (Hdict : on_dicts (products_classified cfg)).
  { intros s s' _ Hp _ Hs d u. rewrite Hp. apply Hs. }
  assert (Hadd : forall domain url s,
             True -> products_classified cfg s ->
             products_classified cfg (add_visited domain url s).2).
  { intros domain url s _ Hs d u. cbn. apply Hs. }
  assert (Hupd : forall domain products s,
             True ->
             (forall u, u ∈ products -> is_product_url cfg u = true) ->
             products_classified cfg s ->
             products_classified cfg (update_products domain products s).2).
  { intros domain products s _ Hp Hs d u Hu.
    apply products_after_update in Hu as [Hu|[_ Hu]]; [eapply Hs | ]; eauto. }
  assert (H : products_classified cfg st').
  { exact (proj1 (keeps_crawl_domains cfg W _ _ Hdict Hadd Hupd fuel domains
                    (fun _ _ => Logic.I) st Hst)). }
  split; [exact H|].
  intros HW d l u Hl Hu. apply (H d). eapply save_results_lookup; eauto.
Qed.

Lemma products_stay_classified_witness :
  products_classified default_config
    (crawl_domains default_config (site_world shop_pages elements) 10
       ["shop.test"%string] (fresh default_config)).2.
Proof.
  refine (proj1 (products_stay_classified default_config
                   (site_world shop_pages elements) 10 ["shop.test"%string]
                   (fresh default_config) _)).
  intros d u Hu. unfold fresh in Hu. cbn [product_urls] in Hu.
  rewrite lookup_total_empty in Hu. now apply not_elem_of_empty in Hu.
Defined.

(** X14. [crawl_domain] writes under its own normalised domain only: the sets of
    every other domain are what they were. *)
Theorem crawl_domain_own_entries cfg W fuel domain other st :
  other <> normalize_domain domain ->
  entries other (crawl_domain cfg W fuel domain st).2 = entries other st.
Proof.
  intros Hne.
  pose (I := fun s => entries other s = entries other st).
  assert (Hdict : on_dicts I).
  { intros s s' Hv Hp _. unfold I, entries. now rewrite Hv, Hp. }
  assert (Hadd : forall d url s,
             other <> d -> I s -> I (add_visited d url s).2).
  { intros d url s Hd Hs. unfold I in *. rewrite <- Hs. unfold entries. cbn.
    now rewrite lookup_total_insert_ne by congruence. }
  assert (Hupd : forall d products s,
             other <> d ->
             (forall u, u ∈ products -> is_product_url cfg u = true) ->
             I s -> I (update_products d products s).2).
  { intros d products s Hd _ Hs. unfold I in *. rewrite <- Hs.
    unfold entries. cbn.
    now rewrite lookup_total_insert_ne by congruence. }
  exact (proj1 (keeps_crawl_domain cfg W I _ Hdict Hadd Hupd fuel domain Hne
                  st eq_refl)).
Qed.

Lemma crawl_domain_own_entries_witness :
  entries "other.test"
    (crawl_domain default_config (site_world shop_pages elements) 10
       "shop.test" (fresh default_config)).2
  = entries "other.test" (fresh default_config).
Proof.
  pose proof (crawl_domain_own_entries default_config
                (site_world shop_pages elements) 10 "shop.test" "other.test"
                (fresh default_config)) as H.
  apply H. vm_compute. discriminate.
Defined.

(** X15. Nothing is ever removed: in any run, each domain's set of visited URLs
    and each domain's set of products can only grow. *)
Theorem dictionaries_only_grow cfg W fuel domains st d :
  let st' := (crawl_domains cfg W fuel domains st).2 in
  visited_categories st !!! d ⊆ visited_categories st' !!! d
  /\ product_urls st !!! d ⊆ product_urls st' !!! d.
Proof.
  cbn zeta.
  assert (Hok : step_ok cfg (fun _ => True) st
                  (crawl_domains cfg W fuel domains st).2)
    by (apply ok_crawl_domains; auto).
  split; [apply (ok_visited _ _ _ _ Hok) | apply (ok_products _ _ _ _ Hok)].
Qed.

(** * Every visited URL has been requested *)

Lemma gather_ret_keeps (I : Fetcher -> Prop) tasks :
  (forall t, t ∈ tasks -> forall s s', t s = (Ret tt, s') -> I s -> I s') ->
  forall st st', gather tasks st = (Ret tt, st') -> I st -> I st'.
Proof.
  induction tasks as [|t ts IH]; intros H st st' Hrun HI; cbn [gather] in Hrun.
  - now injection Hrun as <-.
  - apply bind_ret in Hrun as ([] & s1 & Hfirst & Hrest).
    eapply IH; [|exact Hrest|].
    + intros t' Ht'. apply H. now right.
    + eapply H; [left|exact Hfirst|exact HI].
Qed.

Section Requested.
Context (cfg : CrawlerConfig) (W : World).

Lemma fetch_url_requested url retry_count st :
visited_fetched st -> visited_fetched (fetch_url cfg W url retry_count st).2.
Proof.
intros Hvf d u Hu.
pose proof (fetch_url_effects cfg W url retry_count st) as Hf. cbn zeta in Hf.
destruct Hf as (H1 & _ & _ & (evs & Ht & _) & _).
rewrite H1 in Hu. rewrite Ht. apply elem_of_app. left. exact (Hvf d u Hu).
Qed.

Lemma process_batch_requested fuel domain urls st st' :
process_batch cfg W fuel domain urls st = (Ret tt, st') ->
visited_fetched st -> visited_fetched st'.
Proof.
unfold process_batch. unfold bind at 1. cbn [get_state fst snd].
intros Hrun.
apply (spawn_crawl_ret cfg W fuel domain 0
         (fun url a b => crawl_category_pages_ret cfg W fuel domain url 0 a b)
         _ _ _ _ _ _ Hrun).
Qed.

Lemma crawl_domain_requested fuel domain st st' :
crawl_domain cfg W fuel domain st = (Ret tt, st') ->
visited_fetched st -> visited_fetched st'.
Proof.
rewrite crawl_domain_unfold. cbn zeta.
destruct (bool_decide _); [now intros [= <-]|].
pose proof (fetch_url_requested ("https://" +:+ normalize_domain domain) 0 st)
  as Hf.
destruct (fetch_url cfg W _ 0 st) as [[[body|]| | |] st1];
  cbn [snd] in Hf; try discriminate.
- destruct (String.eqb body ""); [intros [= <-]; exact Hf|].
  destruct (root_categories _ _ _ _) as [category_urls|]; [|discriminate].
  destruct (batches _ _) as [bs|]; [|discriminate].
  intros Hrun Hvf. apply Hf in Hvf. revert Hrun Hvf.
  apply gather_ret_keeps. intros t Ht.
  apply list_elem_of_fmap in Ht as (b & -> & _).
  intros s s'. apply process_batch_requested.
- intros [= <-]. exact Hf.
Qed.

Lemma crawl_domains_requested fuel domains st st' :
crawl_domains cfg W fuel domains st = (Ret tt, st') ->
visited_fetched st -> visited_fetched st'.
Proof.
unfold crawl_domains. apply gather_ret_keeps. intros t Ht.
apply list_elem_of_fmap in Ht as (d & -> & _).
intros s s'. apply crawl_domain_requested.
Qed.

End Requested.

(** X16. When a crawl returns, every URL in [visited_categories] has been
    requested: marking a URL visited is always followed by its fetch. *)
Theorem visited_urls_were_requested cfg W fuel domains st st' :
  visited_fetched st ->
  crawl_domains cfg W fuel domains st = (Ret tt, st') ->
  visited_fetched st'.
Proof. intros Hvf Hrun. eapply crawl_domains_requested; eauto. Qed.

Lemma visited_urls_were_requested_witness :
  visited_fetched
    (crawl_domains default_config (site_world selflink_pages elements) 10
       ["https://shop.test/shop/"%string] (fresh default_config)).2.
Proof.
  apply (visited_urls_were_requested default_config
           (site_world selflink_pages elements) 10
           ["https://shop.test/shop/"%string] (fresh default_config)).
  - intros d u Hu. unfold fresh in Hu. cbn [visited_categories] in Hu.
    rewrite lookup_total_empty in Hu. now apply not_elem_of_empty in Hu.
  - vm_compute. reflexivity.
Defined.

(** * The semaphore *)

Section Slots.
Context (cfg : CrawlerConfig) (W : World).

Lemma slots_fetch_url url retry_count st v st' :
fetch_url cfg W url retry_count st = (Ret v, st') ->
semaphore st' = semaphore st.
Proof.
intros Hrun.
pose proof (fetch_url_from_frame cfg W
              (Z.to_nat (max_retries cfg - retry_count)) url retry_count st)
  as Hf.
cbn zeta in Hf. unfold fetch_url in Hrun. rewrite Hrun in Hf.
destruct Hf as (_ & _ & _ & evs & _ & _ & Hret).
exact (proj1 (Hret v eq_refl)).
Qed.

Lemma slots_process_page domain page_url st found st' :
process_page cfg W domain page_url st = (Ret found, st') ->
semaphore st' = semaphore st.
Proof.
rewrite process_page_eq.
destruct (fetch_url cfg W page_url 0 st) as [[v| | |] s] eqn:E;
  try discriminate.
apply slots_fetch_url in E. intros Hrun.
assert (Hs : s = st').
{ destruct v as [body|];
    [destruct (String.eqb body "");
     [|destruct (page_result cfg W domain s body)]|]; congruence. }
now subst s.
Qed.

Lemma slots_gather tasks :
(forall t, t ∈ tasks ->
           forall s s', t s = (Ret tt, s') -> semaphore s' = semaphore s) ->
forall st st', gather tasks st = (Ret tt, st') -> semaphore st' = semaphore st.
Proof.
intros H st st' Hrun.
refine (gather_ret_keeps (fun s => semaphore s = semaphore st) tasks _
          st st' Hrun eq_refl).
intros t Ht s s' Hts Hs. rewrite <- Hs. now apply (H t Ht).
Qed.

Lemma slots_spawn_gather (f : string -> M unit) kind parent depth targets st st' :
(forall u s s', f u s = (Ret tt, s') -> semaphore s' = semaphore s) ->
bind (spawn_all kind parent depth targets) (fun _ => gather (map f targets)) st
= (Ret tt, st') ->
semaphore st' = semaphore st.
Proof.
intros Hf Hrun. unfold bind in Hrun.
destruct (spawn_all_frame kind parent depth targets st) as [evs E].
rewrite E in Hrun.
apply slots_gather in Hrun; [exact Hrun|].
intros t Ht. apply list_elem_of_fmap in Ht as (u & -> & _). apply Hf.
Qed.

Lemma slots_crawl_category_pages fuel :
forall domain url depth st st',
  crawl_category_pages cfg W fuel domain url depth st = (Ret tt, st') ->
  semaphore st' = semaphore st.
Proof.
induction fuel as [|fuel IH]; intros domain url depth st st' Hrun;
  [discriminate|].
rewrite crawl_category_pages_unfold in Hrun.
destruct (bool_decide _ || _); [now injection Hrun as <-|].
apply bind_ret in Hrun as ([[p s] g] & s2 & Hpage & Hexp).
apply slots_process_page in Hpage. cbn in Hpage.
rewrite expand_eq in Hexp. unfold follow in Hexp.
apply bind_ret in Hexp as ([] & s4 & Hsub & Hpag).
assert (H4 : semaphore s4 = semaphore s2).
{ destruct ((depth <? max_depth cfg) && negb (bool_decide (s = []))).
  - unfold bind at 1 in Hsub. cbn [get_state fst snd] in Hsub.
    apply slots_spawn_gather in Hsub; [exact Hsub|].
    intros u a b. apply IH.
  - now injection Hsub as <-. }
rewrite <- Hpage, <- H4.
destruct (negb (bool_decide (g = []))).
- unfold bind at 1 in Hpag. cbn [get_state fst snd] in Hpag.
  apply slots_spawn_gather in Hpag; [exact Hpag|].
  intros u a b. apply IH.
- now injection Hpag as <-.
Qed.

Lemma slots_process_batch fuel domain urls st st' :
process_batch cfg W fuel domain urls st = (Ret tt, st') ->
semaphore st' = semaphore st.
Proof.
unfold process_batch. unfold bind at 1. cbn [get_state fst snd].
intros Hrun. apply slots_spawn_gather in Hrun; [exact Hrun|].
intros u a b. apply slots_crawl_category_pages.
Qed.

Lemma slots_crawl_domain fuel domain st st' :
crawl_domain cfg W fuel domain st = (Ret tt, st') ->
semaphore st' = semaphore st.
Proof.
rewrite crawl_domain_unfold. cbn zeta.
destruct (bool_decide _); [now intros [= <-]|].
destruct (fetch_url cfg W _ 0 st) as [[[body|]| | |] st1] eqn:E;
  try discriminate; apply slots_fetch_url in E.
- destruct (String.eqb body ""); [now intros [= <-]|].
  destruct (root_categories _ _ _ _) as [category_urls|]; [|discriminate].
  destruct (batches _ _) as [bs|]; [|discriminate].
  intros Hrun. rewrite <- E. revert Hrun. apply slots_gather.
  intros t Ht. apply list_elem_of_fmap in Ht as (b & -> & _).
  intros s s'. apply slots_process_batch.
- now intros [= <-].
Qed.

Lemma slots_crawl_domains fuel domains st st' :
crawl_domains cfg W fuel domains st = (Ret tt, st') ->
semaphore st' = semaphore st.
Proof.
unfold crawl_domains. apply slots_gather. intros t Ht.
apply list_elem_of_fmap in Ht as (d & -> & _).
intros s s'. apply slots_crawl_domain.
Qed.

End Slots.

(** X17. Every slot taken is given back: when a crawl returns, the semaphore has
    as many free slots as it had when the crawl started, and so has it after
    every call of [fetch_url], [process_page] and [crawl_domain] that
    returns. *)
Theorem crawl_returns_slots cfg W fuel domains st st' :
  crawl_domains cfg W fuel domains st = (Ret tt, st') ->
  semaphore st' = semaphore st
  /\ (forall url retry_count s v s',
         fetch_url cfg W url retry_count s = (Ret v, s') ->
         semaphore s' = semaphore s)
  /\ (forall domain page_url s found s',
         process_page cfg W domain page_url s = (Ret found, s') ->
         semaphore s' = semaphore s)
  /\ (forall domain s s',
         crawl_domain cfg W fuel domain s = (Ret tt, s') ->
         semaphore s' = semaphore s).
Proof.
  intros Hrun. split; [exact (slots_crawl_domains cfg W _ _ _ _ Hrun)|].
  split; [apply slots_fetch_url|].
  split; [apply slots_process_page | apply slots_crawl_domain].
Qed.

Lemma crawl_returns_slots_witness :
  semaphore
    (crawl_domains default_config (site_world selflink_pages elements) 10
       ["https://shop.test/shop/"%string] (fresh default_config)).2
  = 10.
Proof.
  refine (proj1 (crawl_returns_slots default_config
                   (site_world selflink_pages elements) 10
                   ["https://shop.test/shop/"%string] (fresh default_config)
                   (crawl_domains default_config
                      (site_world selflink_pages elements) 10
                      ["https://shop.test/shop/"%string]
                      (fresh default_config)).2 _)).
  vm_compute. reflexivity.
Defined.


(** * Deduplication below the root *)

Section Dedup.
Context (cfg : CrawlerConfig) (W : World) (domain : string).

Local Abbreviation J := (requested_once cfg domain).
Local Abbreviation always := (fun _ => True).

Lemma dedup_spawn_all kind parent depth urls :
keeps J always (spawn_all kind parent depth urls).
Proof.
unfold spawn_all. apply keeps_gather. intros t Ht.
apply list_elem_of_fmap in Ht as (u & -> & _).
intros st HJ. split; [|auto]. intros v. cbn [log snd trace visited_categories].
rewrite requests_of_app. change (requests_of v [Spawn _ _ _ _]) with 0%nat.
rewrite Nat.add_0_r. apply HJ.
Qed.

Lemma dedup_update_products products :
keeps J always (update_products domain products).
Proof. intros st HJ. split; [|auto]. intros v. apply HJ. Qed.

(** Marking an unvisited URL and fetching it keeps the property. *)
Lemma dedup_page page_url st :
J st ->
page_url ∉ visited_categories st !!! domain ->
J (process_page cfg W domain page_url (add_visited domain page_url st).2).2.
Proof.
intros HJ Hnew.
set (s1 := (add_visited domain page_url st).2).
assert (Hsame : (process_page cfg W domain page_url s1).2
                = (fetch_url cfg W page_url 0 s1).2).
{ rewrite process_page_eq.
  destruct (fetch_url cfg W page_url 0 s1) as [[[body|]| | |] s2];
    try reflexivity.
  destruct (String.eqb body ""); [reflexivity|].
  destruct (page_result cfg W domain s2 body); reflexivity. }
rewrite Hsame.
pose proof (fetch_url_effects cfg W page_url 0 s1) as Hf. cbn zeta in Hf.
destruct Hf as (Hv & _ & _ & (evs & Ht & Hother & Hmine & _) & _).
rewrite Z.sub_0_r in Hmine.
intros u. rewrite Hv, Ht, requests_of_app. subst s1.
cbn [trace add_visited snd].
destruct (decide (u = page_url)) as [->|Hne].
- destruct (HJ page_url) as [_ Hzero]. rewrite (Hzero Hnew). cbn [Nat.add].
  split; [exact Hmine|]. intros Hout. exfalso. apply Hout.
  apply visited_after_add. auto.
- rewrite (Hother u Hne), Nat.add_0_r. destruct (HJ u) as [Hle Hzero].
  split; [exact Hle|]. intros Hout. apply Hzero. intros Hin. apply Hout.
  apply visited_after_add. auto.
Qed.

Lemma dedup_crawl_category_pages fuel :
forall start_url depth,
  keeps J always (crawl_category_pages cfg W fuel domain start_url depth).
Proof.
induction fuel as [|fuel IH]; intros start_url depth st HJ.
- split; [exact HJ | auto].
- split; [|auto]. rewrite crawl_category_pages_unfold.
  destruct (bool_decide (start_url ∈ visited_categories st !!! domain))
    eqn:Hseen; [exact HJ|].
  cbn [orb]. destruct (max_depth cfg <? depth); [exact HJ|].
  apply bool_decide_eq_false in Hseen.
  pose proof (dedup_page start_url st HJ Hseen) as HJ2.
  unfold bind.
  destruct (process_page cfg W domain start_url
              (add_visited domain start_url st).2) as [[[[p s] g]| | |] s2];
    cbn [snd] in HJ2 |- *; try exact HJ2.
  rewrite expand_eq. unfold follow.
  refine (proj1 (keeps_bind J always always _ _ _ _ _
                   (proj1 (dedup_update_products p s2 HJ2)))).
  + destruct (_ && _); [|now apply keeps_ret].
    apply (keeps_bind J always); [intros x Hx; split; auto|]. intros st1 _.
    apply (keeps_bind J always); [apply dedup_spawn_all|]. intros _ _.
    apply keeps_gather. intros t Ht.
    apply list_elem_of_fmap in Ht as (u & -> & _). apply IH.
  + intros _ _. destruct (negb _); [|now apply keeps_ret].
    apply (keeps_bind J always); [intros x Hx; split; auto|]. intros st1 _.
    apply (keeps_bind J always); [apply dedup_spawn_all|]. intros _ _.
    apply keeps_gather. intros t Ht.
    apply list_elem_of_fmap in Ht as (u & -> & _). apply IH.
Qed.

Lemma dedup_process_batch fuel urls :
keeps J always (process_batch cfg W fuel domain urls).
Proof.
unfold process_batch.
apply (keeps_bind J always); [intros x Hx; split; auto|]. intros st1 _.
apply (keeps_bind J always); [apply dedup_spawn_all|]. intros _ _.
apply keeps_gather. intros t Ht.
apply list_elem_of_fmap in Ht as (u & -> & _).
apply dedup_crawl_category_pages.
Qed.

End Dedup.



(** * The constructor *)

(** X20. [UrlsFetcher(config)] starts with empty dictionaries and
    [max_concurrent_requests] free slots; a negative number of slots is
    refused by [asyncio.Semaphore].  The fresh fetcher satisfies the
    properties that the traversal keeps. *)
Theorem init_is_fresh cfg :
  (0 <= max_concurrent_requests cfg -> UrlsFetcher_init cfg = Some (fresh cfg))
  /\ (max_concurrent_requests cfg < 0 -> UrlsFetcher_init cfg = None)
  /\ visited_fetched (fresh cfg)
  /\ products_classified cfg (fresh cfg)
  /\ (forall domain, requested_once cfg domain (fresh cfg))
  /\ (forall domain, entries domain (fresh cfg) = (∅, ∅)).
Proof.
  unfold UrlsFetcher_init.
  split; [|split; [|split; [|split; [|split]]]].
  - intros H. destruct (Z.ltb_spec (max_concurrent_requests cfg) 0); [lia|].
    reflexivity.
  - intros H. destruct (Z.ltb_spec (max_concurrent_requests cfg) 0); [|lia].
    reflexivity.
  - intros d u Hu. cbn in Hu. rewrite lookup_total_empty in Hu.
    now apply not_elem_of_empty in Hu.
  - intros d u Hu. cbn in Hu. rewrite lookup_total_empty in Hu.
    now apply not_elem_of_empty in Hu.
  - intros domain u. split; [cbn; lia | reflexivity].
  - intros domain. unfold entries. cbn. now rewrite !lookup_total_empty.
Qed.

(** * Fuel *)

Lemma gather_map_ret {A : Type} (f g : A -> M unit) l :
  (forall x s s', f x s = (Ret tt, s') -> g x s = (Ret tt, s')) ->
  forall st st',
    gather (map f l) st = (Ret tt, st') -> gather (map g l) st = (Ret tt, st').
Proof.
  intros H. induction l as [|x l IH]; intros st st' Hrun; cbn [map gather] in *.
  - exact Hrun.
  - apply bind_ret in Hrun as ([] & s1 & Hfirst & Hrest).
    unfold bind. rewrite (H _ _ _ Hfirst). now apply IH.
Qed.

Lemma bind_ret_intro {A B : Type} (c : M A) (k : A -> M B) st a st1 b st' :
  c st = (Ret a, st1) -> k a st1 = (Ret b, st') -> bind c k st = (Ret b, st').
Proof. intros Hc Hk. unfold bind. now rewrite Hc. Qed.

Section Fuel.
Context (cfg : CrawlerConfig) (W : World).

Lemma spawn_crawl_more_fuel fuel fuel' domain kind parent depth targets st st' :
(forall url a b,
    crawl_category_pages cfg W fuel domain url depth a = (Ret tt, b) ->
    crawl_category_pages cfg W fuel' domain url depth a = (Ret tt, b)) ->
bind (spawn_all kind parent depth targets)
     (fun _ => gather (map (fun page_url =>
                              crawl_category_pages cfg W fuel domain page_url depth)
                           targets)) st = (Ret tt, st') ->
bind (spawn_all kind parent depth targets)
     (fun _ => gather (map (fun page_url =>
                              crawl_category_pages cfg W fuel' domain page_url depth)
                           targets)) st = (Ret tt, st').
Proof.
intros IH Hrun. apply bind_ret in Hrun as ([] & s1 & Hsp & Hg).
eapply bind_ret_intro; [exact Hsp|].
revert Hg. apply gather_map_ret. intros x a b. apply IH.
Qed.

Lemma follow_more_fuel fuel fuel' domain depth s g st st' :
(forall url d a b,
    crawl_category_pages cfg W fuel domain url d a = (Ret tt, b) ->
    crawl_category_pages cfg W fuel' domain url d a = (Ret tt, b)) ->
follow cfg W fuel domain depth s g st = (Ret tt, st') ->
follow cfg W fuel' domain depth s g st = (Ret tt, st').
Proof.
intros IH. unfold follow.
destruct ((depth <? max_depth cfg) && negb (bool_decide (s = [])));
  destruct (negb (bool_decide (g = [])));
  intros Hrun; apply bind_ret in Hrun as ([] & s4 & Hsub & Hpag);
  apply (bind_ret_intro _ _ st tt s4); try assumption.
all: unfold bind at 1; cbn [get_state fst snd].
all: try (unfold bind at 1 in Hsub; cbn [get_state fst snd] in Hsub).
all: try (unfold bind at 1 in Hpag; cbn [get_state fst snd] in Hpag).
all: first [ revert Hsub; apply spawn_crawl_more_fuel; intros url a b; apply IH
           | revert Hpag; apply spawn_crawl_more_fuel; intros url a b; apply IH ].
Qed.

Lemma crawl_category_pages_more_fuel fuel :
forall fuel' domain url depth st st',
  (fuel <= fuel')%nat ->
  crawl_category_pages cfg W fuel domain url depth st = (Ret tt, st') ->
  crawl_category_pages cfg W fuel' domain url depth st = (Ret tt, st').
Proof.
induction fuel as [|fuel IH]; intros fuel' domain url depth st st' Hle Hrun;
  [discriminate|].
destruct fuel' as [|fuel']; [lia|].
rewrite crawl_category_pages_unfold in *.
destruct (bool_decide _ || _); [exact Hrun|].
apply bind_ret in Hrun as ([[p s] g] & s2 & Hpage & Hexp).
unfold bind. rewrite Hpage. rewrite expand_eq in *.
revert Hexp. apply follow_more_fuel.
intros u d a b. apply IH. lia.
Qed.

Lemma crawl_domain_more_fuel fuel fuel' domain st st' :
(fuel <= fuel')%nat ->
crawl_domain cfg W fuel domain st = (Ret tt, st') ->
crawl_domain cfg W fuel' domain st = (Ret tt, st').
Proof.
intros Hle. rewrite !crawl_domain_unfold. cbn zeta.
destruct (bool_decide _); [auto|].
destruct (fetch_url cfg W _ 0 st) as [[[body|]| | |] st1]; auto.
destruct (String.eqb body ""); [auto|].
destruct (root_categories _ _ _ _) as [category_urls|]; [|auto].
destruct (batches _ _) as [bs|]; [|auto].
apply gather_map_ret. intros b s s'. unfold process_batch.
unfold bind at 1 3. cbn [get_state fst snd].
apply spawn_crawl_more_fuel.
intros x a c. now apply crawl_category_pages_more_fuel.
Qed.

End Fuel.

(** The fuel of the model only bounds the nesting of the recursion: a crawl
    that returns with some fuel returns the same fetcher with any larger
    fuel. *)
Lemma more_fuel_same_result cfg W fuel fuel' domains st st' :
  (fuel <= fuel')%nat ->
  crawl_domains cfg W fuel domains st = (Ret tt, st') ->
  crawl_domains cfg W fuel' domains st = (Ret tt, st').
Proof.
  intros Hle. unfold crawl_domains. apply gather_map_ret.
  intros d s s'. now apply crawl_domain_more_fuel.
Qed.

(** * The catch-all category pattern *)

Lemma not_slash_in_set x :
  x <> "/"%char -> Re.cset_match true true [Re.CChar "/"] x = true.
Proof.
  intros Hx.
  destruct x as [[] [] [] [] [] [] [] []]; try reflexivity.
  exfalso. apply Hx. reflexivity.
Qed.

Lemma matches_cat ic r1 r2 w w1 w2 rest :
  w = w1 ++ w2 ->
  matches ic r1 w1 (w2 ++ rest) -> matches ic r2 w2 rest ->
  matches ic (Re.Cat r1 r2) w rest.
Proof. intros ->. apply MCat. Qed.

Lemma matches_star_not_slash l rest :
  Forall (fun c => c <> "/"%char) l ->
  matches true (Re.Star (Re.CSet true [Re.CChar "/"])) l rest.
Proof.
  induction 1 as [|x l Hx Hl IH].
  - apply MStarNil.
  - apply (MStarCons true _ [x] l rest); [|exact IH].
    apply MSet. now apply not_slash_in_set.
Qed.

Lemma matches_plus_not_slash l rest :
  l <> [] ->
  Forall (fun c => c <> "/"%char) l ->
  matches true
    (Re.Cat (Re.CSet true [Re.CChar "/"]) (Re.Star (Re.CSet true [Re.CChar "/"])))
    l rest.
Proof.
  intros Hne Hl. destruct l as [|x l]; [contradiction|].
  apply Forall_cons in Hl as [Hx Hl].
  apply (matches_cat true _ _ _ [x] l rest); [reflexivity| |].
  - apply MSet. now apply not_slash_in_set.
  - now apply matches_star_not_slash.
Qed.

Lemma list_ascii_nonempty s : s <> ""%string -> String.list_ascii_of_string s <> [].
Proof. destruct s; [contradiction | discriminate]. Qed.

Lemma two_segments_found pre a b :
  a <> ""%string -> b <> ""%string -> slash_free a -> slash_free b ->
  found_in true "/[^/]+/[^/]+$" (pre +:+ "/" +:+ a +:+ "/" +:+ b).
Proof.
  intros Ha Hb Hsa Hsb. unfold found_in.
  eexists _, (String.list_ascii_of_string pre),
    ("/"%char :: String.list_ascii_of_string a
       ++ "/"%char :: String.list_ascii_of_string b), [].
  split; [vm_compute; reflexivity|]. split.
  - rewrite !list_ascii_app, app_nil_r. reflexivity.
  - eapply (matches_cat true _ _ _ ["/"%char]); [reflexivity| |].
    { apply MChr. reflexivity. }
    eapply (matches_cat true _ _ _ (String.list_ascii_of_string a)
              ("/"%char :: String.list_ascii_of_string b)); [reflexivity| |].
    { apply matches_plus_not_slash;
        [now apply list_ascii_nonempty | exact Hsa]. }
    eapply (matches_cat true _ _ _ ["/"%char]); [reflexivity| |].
    { apply MChr. reflexivity. }
    eapply (matches_cat true _ _ _ (String.list_ascii_of_string b) []);
      [now rewrite app_nil_r| |].
    { apply matches_plus_not_slash;
        [now apply list_ascii_nonempty | exact Hsb]. }
    eapply (matches_cat true _ _ _ [] []); [reflexivity| |].
    + apply MEol. reflexivity.
    + apply MEps.
Qed.

(** X22. Under the default category patterns, every URL that ends in two
    non-empty segments separated by a slash is a category URL, whatever
    comes before them: the pattern [/[^/]+/[^/]+$] accepts the host followed
    by a single path segment, so a product page such as
    [https://shop.test/p/42] is category-classified too. *)
Theorem two_segment_urls_are_categories cfg pre a b :
  category_patterns cfg = Some default_category_patterns ->
  a <> ""%string -> b <> ""%string -> slash_free a -> slash_free b ->
  is_category_url cfg (pre +:+ "/" +:+ a +:+ "/" +:+ b) = true.
Proof.
  intros Hc Ha Hb Hsa Hsb. unfold is_category_url. rewrite Hc.
  apply re_any_found. exists "/[^/]+/[^/]+$"%string. split.
  - unfold patterns, default_category_patterns.
    repeat first [apply list_elem_of_here | apply list_elem_of_further].
  - now apply two_segments_found.
Qed.

Lemma two_segment_urls_are_categories_witness :
  is_category_url default_config "https://shop.test/p/42" = true.
Proof.
  apply (two_segment_urls_are_categories default_config "https://shop.test" "p" "42"
           eq_refl).
  - discriminate.
  - discriminate.
  - repeat constructor; discriminate.
  - repeat constructor; discriminate.
Defined.

(** * A page is marked before it is fetched *)

(** X24. A URL handed to [crawl_category_pages] within the depth limit is marked
    visited whatever becomes of its fetch, and from then on every further
    call for it in this domain returns at once: a page whose fetch failed is
    not tried again. *)
Theorem crawled_page_stays_visited cfg W fuel domain start_url depth st :
  depth <= max_depth cfg ->
  let st' := (crawl_category_pages cfg W (S fuel) domain start_url depth st).2 in
  start_url ∈ visited_categories st' !!! domain
  /\ (forall fuel' depth',
         crawl_category_pages cfg W (S fuel') domain start_url depth' st'
         = (Ret tt, st')).
Proof.
  intros Hd st'.
  assert (Hin : start_url ∈ visited_categories st' !!! domain).
  { subst st'. rewrite crawl_category_pages_unfold.
    destruct (decide (start_url ∈ visited_categories st !!! domain)) as [Hv|Hv].
    - now rewrite bool_decide_eq_true_2.
    - rewrite guard_false by assumption.
      assert (Hok : step_ok cfg (fun _ => True)
                      (add_visited domain start_url st).2
                      (bind (process_page cfg W domain start_url)
                            (expand cfg W fuel domain depth)
                            (add_visited domain start_url st).2).2).
      { apply (ok_bind cfg (fun _ => True) _ _ (fun _ => True)); auto.
        - apply ok_process_page.
        - intros [[p s] g] s1 _. rewrite expand_eq.
          eapply ok_trans; [apply ok_update_products|]. apply ok_follow. }
      apply (ok_visited _ _ _ _ Hok). apply visited_after_add. auto. }
  split; [exact Hin|].
  intros fuel' depth'. rewrite crawl_category_pages_unfold.
  now rewrite bool_decide_eq_true_2.
Qed.

Lemma crawled_page_stays_visited_witness :
  "https://x.test/c/a"%string
    ∈ visited_categories
        (crawl_category_pages default_config (status_world 404) 1 "x.test"
           "https://x.test/c/a" 0 (fresh default_config)).2 !!! "x.test"%string.
Proof.
  pose proof (crawled_page_stays_visited default_config (status_world 404) 0
                "x.test" "https://x.test/c/a" 0 (fresh default_config)) as H.
  refine (proj1 (H _)). vm_compute. discriminate.
Defined.
